(** * retry: criteria evaluation, the I/O pump and the retry loop

  A shallow embedding of [retry.c]: [status_match] (the criteria
  evaluator), [pump] (the poll loop that relays stdin to the child and
  captures the child's stdout) and the retry loop of [main].

  Conventions.
  - C integers are [Z]; a [char *] that is not NULL is the [string] it
    points to (the suffix from the pointer to the terminating NUL), so
    advancing a pointer takes the tail and NULL is [None].
  - The operating system is a script: every call whose result the
    program cannot determine ([poll], [read], [write], [realloc],
    [pipe], [fork], [waitpid]) takes its outcome from the script, and
    what the program does to the outside is recorded in a trace. *)

From Stdlib Require Import ZArith Ascii String Lia Bool.
From Stdlib Require Init.Byte.
From stdpp Require Import base list strings.

Local Open Scope Z_scope.

(* ===================================================================== *)
(** ** The C library functions used by [status_match] *)
(* ===================================================================== *)

Module CStr.

(** [unsigned char] value of a character. *)
Definition uchar (c : ascii) : Z := Z.of_nat (nat_of_ascii c).

Definition NUL : ascii := Ascii.zero.

(** [*p] for a non-NULL [const char *p]. *)
Definition deref (p : string) : ascii :=
  match p with
  | EmptyString => NUL
  | String c _ => c
  end.

(** [p + 1] (only used where [*p] is not NUL). *)
Definition advance (p : string) : string :=
  match p with
  | EmptyString => EmptyString
  | String _ r => r
  end.

Fixpoint strlen (s : string) : Z :=
  match s with
  | EmptyString => 0
  | String _ r => 1 + strlen r
  end.

(** [q - p] for [q] pointing into the string at [p]. *)
Definition ptrdiff (q p : string) : Z := strlen p - strlen q.

(** Conversion to [int] (32 bits, two's complement) and to [size_t]
    (64 bits). *)
Definition to_int (z : Z) : Z := (z + 2 ^ 31) mod 2 ^ 32 - 2 ^ 31.
Definition to_size_t (z : Z) : Z := z mod 2 ^ 64.

Fixpoint strchr (s : string) (c : ascii) : option string :=
  match s with
  | EmptyString => if Ascii.eqb c NUL then Some s else None
  | String a r => if Ascii.eqb a c then Some s else strchr r c
  end.

(** [strncmp s1 s2 n]: compares at most [n] characters and stops at the
    terminator.  The sign of a non-zero result follows the first
    differing [unsigned char]s. *)
Fixpoint strncmp (s1 s2 : string) (n : Z) : Z :=
  if n <=? 0 then 0
  else
    match s1, s2 with
    | EmptyString, EmptyString => 0
    | EmptyString, String c2 _ => 0 - uchar c2
    | String c1 _, EmptyString => uchar c1
    | String c1 r1, String c2 r2 =>
        if uchar c1 =? uchar c2 then strncmp r1 r2 (n - 1)
        else uchar c1 - uchar c2
    end.

Definition isdigit (c : ascii) : bool :=
  (48 <=? uchar c) && (uchar c <=? 57).

Definition isspace (c : ascii) : bool :=
  (uchar c =? 32) || ((9 <=? uchar c) && (uchar c <=? 13)).

Definition LONG_MAX : Z := 2 ^ 63 - 1.
Definition LONG_MIN : Z := - 2 ^ 63.

(** The subject sequence of [strtol] in base 10: the longest run of
    decimal digits, with the rest of the string. *)
Fixpoint digits (s : string) (acc : Z) : Z * string :=
  match s with
  | EmptyString => (acc, s)
  | String c r =>
      if isdigit c then digits r (acc * 10 + (uchar c - 48)) else (acc, s)
  end.

Fixpoint skip_space (s : string) : string :=
  match s with
  | EmptyString => s
  | String c r => if isspace c then skip_space r else s
  end.

(** [strtol nptr &endptr 10]: the value (clamped to the range of
    [long]) and the final [endptr].  [endptr] is always stored, so it is
    never NULL. *)
Definition strtol (nptr : string) : Z * string :=
  let s := skip_space nptr in
  let '(neg, s1) :=
    if Ascii.eqb (deref s) "-"%char then (true, advance s)
    else if Ascii.eqb (deref s) "+"%char then (false, advance s)
    else (false, s) in
  if isdigit (deref s1) then
    let '(v, e) := digits s1 0 in
    (Z.max LONG_MIN (Z.min LONG_MAX (if neg then - v else v)), e)
  else (0, nptr).

End CStr.

(* ===================================================================== *)
(** ** [status_match] *)
(* ===================================================================== *)

Module Criteria.
Import CStr.

(** How one pass through the body of the [while (criteria)] loop ends:
    by a [return], or by reaching [criteria = next]. *)
Inductive flow : Type :=
| Return (r : Z)
| Next (criteria : option string).

(** [!endptr || !*endptr || *endptr == ','] *)
Definition at_end (endptr : string) : bool :=
  Ascii.eqb (deref endptr) NUL || Ascii.eqb (deref endptr) ","%char.

(** The loop body, lines 188-236. *)
Definition status_match_body (status : Z) (criteria : string) : flow :=
  let next := strchr criteria ","%char in
  let len :=
    to_int (match next with
            | Some nx => ptrdiff nx criteria
            | None => strlen criteria
            end) in
  if (strncmp criteria "success" (to_size_t len) =? 0)
     || (strncmp criteria "true" (to_size_t len) =? 0)
  then Return (Z.b2z (status =? 0))
  else if (strncmp criteria "fail" (to_size_t len) =? 0)
          || (strncmp criteria "false" (to_size_t len) =? 0)
  then Return (Z.b2z (negb (status =? 0)))
  else if negb (isdigit (deref criteria)) then Return (-1)
  else
    let '(r1, endptr) := strtol criteria in
    if at_end endptr then Return (Z.b2z (status =? r1))
    else if negb (Ascii.eqb (deref endptr) "-"%char) then Return (-1)
    else
      let endptr := advance endptr in
      if negb (isdigit (deref endptr)) then Return (-1)
      else
        let '(r2, endptr) := strtol endptr in
        if at_end endptr
        then Return (Z.b2z ((r1 <=? status) && (status <=? r2)))
        else if negb (Ascii.eqb (deref endptr) NUL)
                && negb (Ascii.eqb (deref endptr) ","%char)
        then Return (-1)
        else Next next.

(** The loop.  [fuel] bounds the number of times [criteria = next] may
    be taken; [None] means the bound was reached. *)
Fixpoint status_match_loop (fuel : nat) (status : Z)
    (criteria : option string) : option Z :=
  match criteria with
  | None => Some 1
  | Some c =>
      match status_match_body status c with
      | Return r => Some r
      | Next nx =>
          match fuel with
          | O => None
          | S fuel' => status_match_loop fuel' status nx
          end
      end
  end.

Definition status_match (status : Z) (criteria : option string) : option Z :=
  status_match_loop
    (match criteria with Some c => S (String.length c) | None => O end)
    status criteria.

(** The three results of the evaluator as the specification names
    them. *)
Inductive verdict : Type := Match | NoMatch | Invalid.

Definition verdict_of (r : Z) : verdict :=
  if r =? 0 then NoMatch else if r =? -1 then Invalid else Match.

Definition evaluate (status : Z) (spec : string) : option verdict :=
  verdict_of <$> status_match status (Some spec).

(** *** Vocabulary for the properties *)

Fixpoint all_digits (s : string) : bool :=
  match s with
  | EmptyString => true
  | String c r => isdigit c && all_digits r
  end.

(** The value [strtol] reads from a string of digits. *)
Definition decimal (s : string) : Z := Z.min LONG_MAX (fst (digits s 0)).

End Criteria.

(* ===================================================================== *)
(** ** What the program does to the outside *)
(* ===================================================================== *)

Abbreviation byte := Byte.byte.

(** The diagnostics printed to standard error before giving up. *)
Inductive diag : Type :=
| CouldNotPoll | OutOfMemory | CouldNotRead | CouldNotWrite
| CouldNotPipe | CouldNotFork | WaitpidFailed.

(** A stream of the pump is named by its index in [pumps]; its source is
  the descriptor in slot [OFFSET i READ_FD] of [fds] and its sink the
  one in slot [OFFSET i WRITE_FD]. *)
Inductive event : Type :=
| EvSpawn                                  (* fork returned in the parent *)
| EvPoll                                   (* a call of poll *)
| EvRead (i : nat) (data : list byte)      (* read from the source of i *)
| EvWrite (i : nat) (data : list byte)     (* written to the sink of i *)
| EvStdout (data : list byte)              (* fwrite(..., stdout) *)
| EvStderr (data : list byte)              (* fwrite(..., stderr) *)
| EvNotice (status delay : Z)              (* "... returned %d, ..." *)
| EvSleep (seconds : Z)                    (* sleep(seconds) *)
| EvDiag (d : diag).

Definition writes_to (k : nat) (e : event) : bool :=
  match e with
  | EvWrite i _ => Nat.eqb i k
  | _ => false
  end.

(** Some event of the trace is a [write] to the sink of stream [k]. *)
Definition wrote (k : nat) (tr : list event) : bool :=
  existsb (writes_to k) tr.

(** What [fwrite] sent to the real standard output, call by call. *)
Definition delivered (tr : list event) : list (list byte) :=
  omap (fun e => match e with EvStdout d => Some d | _ => None end) tr.

(** What [fwrite] sent to standard error, call by call. *)
Definition diverted (tr : list event) : list (list byte) :=
  omap (fun e => match e with EvStderr d => Some d | _ => None end) tr.

Definition is_io (e : event) : bool :=
  match e with
  | EvPoll | EvRead _ _ | EvWrite _ _ => true
  | _ => false
  end.

(** Some call of [pump] in the trace got as far as [poll]. *)
Definition pumped (tr : list event) : bool := existsb is_io tr.

(* ===================================================================== *)
(** ** [pump] *)
(* ===================================================================== *)

Module Pump.

Definition READ_FD : nat := 0.
Definition WRITE_FD : nat := 1.
Definition OFFSET (X Y : nat) : nat := (X * 2 + Y)%nat.
Definition PUMPS : nat := 2.
Definition BUFFER_SIZE : Z := 100 * 1024.

(** <poll.h> *)
Definition POLLIN : Z := 1.
Definition POLLOUT : Z := 4.
Definition POLLERR : Z := 8.
Definition POLLHUP : Z := 16.
Definition POLLNVAL : Z := 32.

(** [pump_t].  [base] holds the [len] bytes stored so far (the spare
    capacity behind them is never read).  [pump] keeps
    [0 <= offset <= len = length base] (lemma [pump_keeps_wf]), so the
    conversions between [size_t] and [off_t] are the identity and are
    not written.  The one-bit fields are booleans. *)
Record pump_t : Type := {
  base : list byte;
  len : Z;
  offset : Z;
  read_closed : bool;
  write_closed : bool;
  exit_on_close : bool;
  send_eof : bool
}.

(** [struct pollfd] without its [fd], which [pump] never changes. *)
Record pollfd : Type := { events : Z; revents : Z }.

(** Field assignments. *)
Definition set_len (n : Z) (bs : list byte) (p : pump_t) : pump_t :=
  {| base := bs; len := n; offset := offset p;
     read_closed := read_closed p; write_closed := write_closed p;
     exit_on_close := exit_on_close p; send_eof := send_eof p |}.

Definition set_offset (o : Z) (p : pump_t) : pump_t :=
  {| base := base p; len := len p; offset := o;
     read_closed := read_closed p; write_closed := write_closed p;
     exit_on_close := exit_on_close p; send_eof := send_eof p |}.

(** [read_closed = 1; send_eof = 1] *)
Definition close_read (p : pump_t) : pump_t :=
  {| base := base p; len := len p; offset := offset p;
     read_closed := true; write_closed := write_closed p;
     exit_on_close := exit_on_close p; send_eof := true |}.

(** [write_closed = 1] *)
Definition close_write (p : pump_t) : pump_t :=
  {| base := base p; len := len p; offset := offset p;
     read_closed := read_closed p; write_closed := true;
     exit_on_close := exit_on_close p; send_eof := send_eof p |}.

(** [exit_on_close = 1] *)
Definition set_exit_on_close (p : pump_t) : pump_t :=
  {| base := base p; len := len p; offset := offset p;
     read_closed := read_closed p; write_closed := write_closed p;
     exit_on_close := true; send_eof := send_eof p |}.

Definition set_events (j : nat) (e : Z) (fds : list pollfd) : list pollfd :=
  alter (fun f => {| events := e; revents := revents f |}) j fds.

Definition revents_at (fds : list pollfd) (j : nat) : Z :=
  match fds !! j with
  | Some f => revents f
  | None => 0
  end.

(** [x & FLAG] used as a condition. *)
Definition has (x flag : Z) : bool := negb (Z.land x flag =? 0).

(** *** The script *)

(** [poll]: it fails, or it reports for every slot the conditions that
    hold on its descriptor. *)
Inductive poll_outcome : Type :=
| PollFail
| PollReady (cond : nat -> Z).

(** [realloc] followed by [read]: no memory, a read error, or the bytes
    that were available (none at end of file). *)
Inductive read_outcome : Type :=
| ReadNoMem
| ReadFail
| ReadOk (data : list byte).

(** [write]: an error, or the number of bytes the sink is willing to
    take; [write] returns that number or the number offered, whichever
    is less. *)
Inductive write_outcome : Type :=
| WriteFail
| WriteOk (room : nat).

(** One iteration of the [while (1)] loop that reaches [poll]. *)
Record round : Type := {
  r_poll : poll_outcome;
  r_read : nat -> read_outcome;
  r_write : nat -> write_outcome
}.

(** *** Lines 250-271: arming the descriptors *)

Definition arm_one (i : nat) (p : pump_t) (fds : list pollfd) (stay : bool)
    : list pollfd * bool :=
  let fds := set_events (OFFSET i READ_FD) 0 fds in
  let fds := set_events (OFFSET i WRITE_FD) 0 fds in
  let '(fds, stay) :=
    if negb (read_closed p)
    then (set_events (OFFSET i READ_FD) POLLIN fds, true)
    else (fds, stay) in
  if negb (write_closed p) && (send_eof p || (offset p <? len p))
  then (set_events (OFFSET i WRITE_FD) POLLOUT fds, true)
  else (fds, stay).

(** The [for] loop from [i] with [n] iterations left ([n = PUMPS - i]).
    [pumps] has [PUMPS] entries, so the lookup succeeds. *)
Fixpoint arm (n i : nat) (pumps : list pump_t) (fds : list pollfd)
    (stay : bool) : list pollfd * bool :=
  match n with
  | O => (fds, stay)
  | S n' =>
      match pumps !! i with
      | None => (fds, stay)
      | Some p =>
          let '(fds, stay) := arm_one i p fds stay in
          if read_closed p && exit_on_close p then (fds, false)
          else arm n' (S i) pumps fds stay
      end
  end.

(** *** Line 277: [poll]

    [poll] reports in [revents] the conditions asked for in [events],
    and POLLERR, POLLHUP and POLLNVAL whether asked for or not. *)
Definition poll (fds : list pollfd) (o : poll_outcome)
    : option (list pollfd) :=
  match o with
  | PollFail => None
  | PollReady cond =>
      Some (imap (fun j f =>
              {| events := events f;
                 revents :=
                   Z.land (cond j)
                     (Z.lor (events f)
                        (Z.lor POLLERR (Z.lor POLLHUP POLLNVAL))) |}) fds)
  end.

(** *** Lines 285-361: serving the descriptors *)

(** The result of a step that may [return -1]: the trace, and the
    stream with whether to go on. *)
Inductive served : Type :=
| Served (tr : list event) (p : pump_t)
| GaveUp (tr : list event) (p : pump_t).

Definition and_then (s : served) (k : pump_t -> served) : served :=
  match s with
  | Served tr p =>
      match k p with
      | Served tr' p' => Served (tr ++ tr') p'
      | GaveUp tr' p' => GaveUp (tr ++ tr') p'
      end
  | GaveUp tr p => GaveUp tr p
  end.

Notation "'step' p <- s 'then' k" := (and_then s (fun p => k))
  (at level 10, p name, s at level 100, k at level 200).

(** Lines 287-317. *)
Definition do_read (r : round) (i : nat) (p : pump_t) : served :=
  match r_read r i with
  | ReadNoMem => GaveUp [EvDiag OutOfMemory] p
  | ReadFail => GaveUp [EvDiag CouldNotRead] p
  | ReadOk data =>
      let got := take (Z.to_nat BUFFER_SIZE) data in
      let num := Z.of_nat (length got) in
      if num =? 0 then Served [EvRead i got] (close_read p)
      else Served [EvRead i got] (set_len (len p + num) (base p ++ got) p)
  end.

(** Lines 328-352. *)
Definition do_write (r : round) (i : nat) (p : pump_t) : served :=
  match r_write r i with
  | WriteFail => GaveUp [EvDiag CouldNotWrite] p
  | WriteOk room =>
      let sent :=
        take room (take (Z.to_nat (len p - offset p))
                     (drop (Z.to_nat (offset p)) (base p))) in
      let num := Z.of_nat (length sent) in
      let p := set_offset (offset p + num) p in
      Served [EvWrite i sent]
        (if read_closed p && (offset p =? len p) then close_write p else p)
  end.

Definition serve_one (r : round) (fds : list pollfd) (i : nat) (p : pump_t)
    : served :=
  let rd := revents_at fds (OFFSET i READ_FD) in
  let wr := revents_at fds (OFFSET i WRITE_FD) in
  step p <- (if has rd POLLIN then do_read r i p else Served [] p) then
  step p <- Served []
         (if has rd POLLHUP || has rd POLLERR || has rd POLLNVAL
          then close_read p else p) then
  step p <- (if has wr POLLOUT then do_write r i p else Served [] p) then
  Served []
    (if has wr POLLERR || has wr POLLNVAL then close_write p else p).

(** The [for] loop from [i] with [n] iterations left.  The result is
    [inl] when the loop ran to its end and [inr] on [return -1]. *)
Fixpoint serve (n i : nat) (r : round) (fds : list pollfd)
    (pumps : list pump_t) : list event * (list pump_t + list pump_t) :=
  match n with
  | O => ([], inl pumps)
  | S n' =>
      match pumps !! i with
      | None => ([], inl pumps)
      | Some p =>
          match serve_one r fds i p with
          | GaveUp tr p' => (tr, inr (<[i := p']> pumps))
          | Served tr p' =>
              let '(tr', res) := serve n' (S i) r fds (<[i := p']> pumps) in
              (tr ++ tr', res)
          end
      end
  end.

(** *** The [while (1)] loop

    The result of a call: the return value, the streams and what was
    done.  [None]: the script ended while the loop was waiting in
    [poll]. *)
Record result : Type := {
  rc : Z;
  out_pumps : list pump_t;
  out_trace : list event
}.

Definition after (tr : list event) (r : option result) : option result :=
  (fun x => {| rc := rc x; out_pumps := out_pumps x;
               out_trace := tr ++ out_trace x |}) <$> r.

Fixpoint pump (pumps : list pump_t) (fds : list pollfd)
    (script : list round) {struct script} : option result :=
  let '(fds, stay) := arm PUMPS 0 pumps fds false in
  if negb stay then
    Some {| rc := 0; out_pumps := pumps; out_trace := [] |}
  else
    match script with
    | [] => None
    | r :: script' =>
        match poll fds (r_poll r) with
        | None =>
            Some {| rc := -1; out_pumps := pumps;
                    out_trace := [EvPoll; EvDiag CouldNotPoll] |}
        | Some fds =>
            match serve PUMPS 0 r fds pumps with
            | (tr, inr pumps') =>
                Some {| rc := -1; out_pumps := pumps';
                        out_trace := EvPoll :: tr |}
            | (tr, inl pumps') =>
                after (EvPoll :: tr) (pump pumps' fds script')
            end
        end
    end.

(** *** Vocabulary for the properties *)

(** Nothing to wait for and nothing done. *)
Definition at_once (pumps : list pump_t) : option result :=
  Some {| rc := 0; out_pumps := pumps; out_trace := [] |}.

Definition closed (p : pump_t) : bool := read_closed p && write_closed p.
Definition leaving (p : pump_t) : bool := read_closed p && exit_on_close p.

Definition state_of (s : served) : pump_t :=
  match s with
  | Served _ p | GaveUp _ p => p
  end.

Definition streams (res : list pump_t + list pump_t) : list pump_t :=
  match res with
  | inl l | inr l => l
  end.

(** Lines 354-355: the sink reports an error or is not open. *)
Definition sink_error (fds : list pollfd) (i : nat) : bool :=
  has (revents_at fds (OFFSET i WRITE_FD)) POLLERR
  || has (revents_at fds (OFFSET i WRITE_FD)) POLLNVAL.

(** The source has ended and every stored byte went to the sink. *)
Definition drained (p : pump_t) : Prop :=
  read_closed p = true /\ offset p = len p.

(** [pump] never clears a closed flag and never touches
    [exit_on_close]. *)
Definition grows (p q : pump_t) : Prop :=
  exit_on_close q = exit_on_close p
  /\ (read_closed p = true -> read_closed q = true)
  /\ (write_closed p = true -> write_closed q = true).

(** [pump] only appends to a buffer. *)
Definition retains (p q : pump_t) : Prop :=
  exists more, base q = base p ++ more.

(** The bounds that make the buffer arithmetic exact. *)
Definition wf (p : pump_t) : Prop :=
  0 <= offset p <= len p /\ len p = Z.of_nat (length (base p)).

Definition trace_of (s : served) : list event :=
  match s with
  | Served tr _ | GaveUp tr _ => tr
  end.

End Pump.

(* ===================================================================== *)
(** ** The retry loop of [main] *)
(* ===================================================================== *)

Module Retry.
Import Criteria Pump.

Definition STDIN_FD : nat := 0.
Definition STDOUT_FD : nat := 1.

(** <stdlib.h>, <sysexits.h> *)
Definition EXIT_FAILURE : Z := 1.
Definition EX_OSERR : Z := 71.

(** The conversion of a [long] to [unsigned int], as at line 559, where
    [delay] is handed to [sleep (unsigned int)]. *)
Definition to_uint (z : Z) : Z := z mod 2 ^ 32.

(** <sys/wait.h> (glibc) *)
Definition to_schar (z : Z) : Z := (z + 128) mod 256 - 128.
Definition WTERMSIG (st : Z) : Z := Z.land st 127.
Definition WEXITSTATUS (st : Z) : Z := Z.shiftr (Z.land st 65280) 8.
Definition WIFEXITED (st : Z) : bool := WTERMSIG st =? 0.
Definition WIFSIGNALED (st : Z) : bool :=
  0 <? Z.shiftr (to_schar (Z.land st 127 + 1)) 1.

(** What option parsing leaves behind. *)
Record config : Type := {
  repeat_until : option string;
  repeat_while : option string;
  delay : Z;
  times : Z
}.

(** *** The script of one pass through the [while (times)] loop *)

(** [waitpid (f, &status, 0)]: interrupted, failed otherwise, or the
    child's status. *)
Inductive wait_outcome : Type :=
| WaitIntr
| WaitFail
| WaitDone (st : Z).

Record attempt : Type := {
  a_pipe : bool;                  (* both calls of pipe succeeded *)
  a_fork : bool;                  (* fork returned the child's pid *)
  a_rounds : list round;          (* what pump meets *)
  a_wait : list wait_outcome      (* what the calls of waitpid return *)
}.

(** Lines 519-524.  [None]: the script ended in the loop. *)
Fixpoint reap (ws : list wait_outcome) : option (option Z) :=
  match ws with
  | [] => None
  | WaitIntr :: ws' => reap ws'
  | WaitFail :: _ => Some None
  | WaitDone st :: _ => Some (Some st)
  end.

(** A C condition. *)
Definition truthy (z : Z) : bool := negb (z =? 0).

(** Lines 540-542. *)
Definition should_stop (cfg : config) (status : Z) : option bool :=
  u ← match repeat_until cfg with
      | Some c => truthy <$> status_match status (Some c)
      | None => Some false
      end;
  if u : bool then Some true
  else
    w ← match repeat_while cfg with
        | Some c => (fun r => negb (truthy r)) <$> status_match status (Some c)
        | None => Some false
        end;
    if w : bool then Some true
    else Some (negb (bool_decide (is_Some (repeat_until cfg)))
               && negb (bool_decide (is_Some (repeat_while cfg)))
               && truthy status).

(** [pump_t pumps[PUMPS] = { 0 }] *)
Definition pump_zero : pump_t :=
  {| base := []; len := 0; offset := 0; read_closed := false;
     write_closed := false; exit_on_close := false; send_eof := false |}.

Definition pumps_zero : list pump_t := replicate PUMPS pump_zero.

(** [struct pollfd fds[PUMPS * 2]]: [pump] and [poll] write [events] and
    [revents] before they are read. *)
Definition fds_fresh : list pollfd :=
  replicate (PUMPS * 2) {| events := 0; revents := 0 |}.

(** The bytes [fwrite (pumps[i].base, pumps[i].len, 1, ...)] writes. *)
Definition captured (pumps : list pump_t) (i : nat) : list byte :=
  match pumps !! i with
  | Some p => take (Z.to_nat (len p)) (base p)
  | None => []
  end.

(** Lines 501 and 504: the streams as [pump] is called with them. *)
Definition prepare (pumps : list pump_t) : list pump_t :=
  alter set_exit_on_close STDOUT_FD (alter close_write STDOUT_FD pumps).

(** Line 516: the streams as the rest of the pass sees them. *)
Definition rewind (pumps : list pump_t) : list pump_t :=
  alter (set_offset 0) STDIN_FD pumps.

(** The run of the process: the value [main] returns, the streams as
    the loop leaves them (lines 591-596 then free the buffers) and what
    the process did. *)
Record outcome : Type := {
  exit_status : Z;
  final_pumps : list pump_t;
  trace : list event
}.

Definition after (tr : list event) (o : option outcome) : option outcome :=
  (fun x => {| exit_status := exit_status x; final_pumps := final_pumps x;
               trace := tr ++ trace x |}) <$> o.

(** Lines 439-589, in the parent.  (In the child, [fork] returns 0 and
    the process becomes the command.)  [None]: the script ended before
    the process did. *)
Fixpoint main_loop (cfg : config) (times : Z) (pumps : list pump_t)
    (status : Z) (script : list attempt) {struct script} : option outcome :=
  if times =? 0 then
    Some {| exit_status := status; final_pumps := pumps; trace := [] |}
  else
    match script with
    | [] => None
    | a :: script' =>
        if negb (a_pipe a) then
          Some {| exit_status := EXIT_FAILURE; final_pumps := pumps;
                  trace := [EvDiag CouldNotPipe] |}
        else if negb (a_fork a) then
          Some {| exit_status := EXIT_FAILURE; final_pumps := pumps;
                  trace := [EvDiag CouldNotFork] |}
        else
          match pump (prepare pumps) fds_fresh (a_rounds a) with
          | None => None
          | Some r =>
              if negb (rc r =? 0) then
                Some {| exit_status := EXIT_FAILURE;
                        final_pumps := out_pumps r;
                        trace := EvSpawn :: out_trace r |}
              else
                let pumps := rewind (out_pumps r) in
                match reap (a_wait a) with
                | None => None
                | Some None =>
                    Some {| exit_status := EXIT_FAILURE;
                            final_pumps := pumps;
                            trace := EvSpawn :: out_trace r
                                       ++ [EvDiag WaitpidFailed] |}
                | Some (Some st) =>
                    if WIFEXITED st then
                      let status := WEXITSTATUS st in
                      match should_stop cfg status with
                      | None => None
                      | Some true =>
                          Some {| exit_status := status;
                                  final_pumps := pumps;
                                  trace := EvSpawn :: out_trace r
                                    ++ [EvStdout (captured pumps STDOUT_FD)] |}
                      | Some false =>
                          after
                            (EvSpawn :: out_trace r
                               ++ [EvStderr (captured pumps STDOUT_FD);
                                   EvNotice status (delay cfg)]
                               ++ (if delay cfg =? 0 then []
                                   else [EvSleep (to_uint (delay cfg))]))
                            (main_loop cfg
                               (if 0 <? times then times - 1 else times)
                               pumps status script')
                      end
                    else if WIFSIGNALED st then
                      Some {| exit_status := WTERMSIG st + 128;
                              final_pumps := pumps;
                              trace := EvSpawn :: out_trace r |}
                    else
                      Some {| exit_status := EX_OSERR;
                              final_pumps := pumps;
                              trace := EvSpawn :: out_trace r |}
                end
          end
    end.

(** [main] after option parsing. *)
Definition main (cfg : config) (script : list attempt) : option outcome :=
  main_loop cfg (times cfg) pumps_zero 0 script.

End Retry.

(* ===================================================================== *)
(** ** Reading a trace *)
(* ===================================================================== *)

Module Tally.
Import Pump.

(** The bytes read from the source of stream [k], in order. *)
Definition read_from (k : nat) (tr : list event) : list byte :=
  flat_map (fun e => match e with
                     | EvRead i d => if Nat.eqb i k then d else []
                     | _ => []
                     end) tr.

(** The bytes written to the sink of stream [k], in order. *)
Definition written_to (k : nat) (tr : list event) : list byte :=
  flat_map (fun e => match e with
                     | EvWrite i d => if Nat.eqb i k then d else []
                     | _ => []
                     end) tr.

(** The part of the buffer that has gone to the sink. *)
Definition sent (p : pump_t) : list byte :=
  take (Z.to_nat (offset p)) (base p).

(** How a stream [q] relates to the stream [p] it was before the events
    of [tr]: what was read is behind the old buffer, what was written is
    behind the old sent part. *)
Definition accounts (k : nat) (p : pump_t) (tr : list event) (q : pump_t)
    : Prop :=
  wf q
  /\ base q = base p ++ read_from k tr
  /\ sent q = sent p ++ written_to k tr.

(** Some event of the trace is a [read] from the source of stream [k]. *)
Definition read_at (k : nat) (tr : list event) : bool :=
  existsb (fun e => match e with EvRead i _ => Nat.eqb i k | _ => false end) tr.

(** The events [pump] produces. *)
Definition pump_event (e : event) : Prop :=
  match e with
  | EvPoll | EvRead _ _ | EvWrite _ _ | EvDiag _ => True
  | _ => False
  end.

(** The number of children started. *)
Definition spawns (tr : list event) : nat :=
  length (List.filter (fun e => match e with EvSpawn => true | _ => false end)
            tr).

(** Some diagnostic was printed. *)
Definition diagnosed (tr : list event) : bool :=
  existsb (fun e => match e with EvDiag _ => true | _ => false end) tr.

End Tally.

(* ===================================================================== *)
(** ** The options of [main] and [help] *)
(* ===================================================================== *)

Module Options.
Import CStr Criteria Retry.

Definition DEFAULT_DELAY : Z := 10.
Definition DEFAULT_TIMES : Z := -1.

(** <errno.h> *)
Definition ERANGE : Z := 34.

Fixpoint strrchr (s : string) (c : ascii) : option string :=
  match s with
  | EmptyString => if Ascii.eqb c NUL then Some s else None
  | String a r =>
      match strrchr r c with
      | Some q => Some q
      | None => if Ascii.eqb a c then Some s else None
      end
  end.

(** [errno] after [errno = 0; strtol (nptr, &endptr, 10)] (glibc): ERANGE
    when the value does not fit a [long], untouched otherwise. *)
Definition strtol_errno (nptr : string) : Z :=
  let s := skip_space nptr in
  let '(neg, s1) :=
    if Ascii.eqb (deref s) "-"%char then (true, advance s)
    else if Ascii.eqb (deref s) "+"%char then (false, advance s)
    else (false, s) in
  if isdigit (deref s1) then
    let '(v, _) := digits s1 0 in
    let x := if neg then - v else v in
    if (x <? LONG_MIN) || (LONG_MAX <? x) then ERANGE else 0
  else 0.

(** The messages [main] passes to [help]. *)
Inductive complaint : Type :=
| BadDelay | BadTimes | BadUntil | BadWhile | NoCommand.

(** What [help] and [version] print: the stream, the message and the
    name the usage text is printed with, or the version line. *)
Inductive shown : Type :=
| Usage (to_stderr : bool) (msg : option complaint) (n : string)
| Version.

(** Lines 74-82: the name after the last slash. *)
Definition program_name (name : string) : string :=
  match strrchr name "/"%char with
  | None => name
  | Some q => advance q
  end.

(** Lines 72-174. *)
Definition help (name : string) (msg : option complaint) (code : Z)
    : Z * shown :=
  (code, Usage (truthy code) msg (program_name name)).

(** Lines 176-180. *)
Definition version : Z * shown := (0, Version).

(** The variables option parsing sets (lines 371-378). *)
Record settings : Type := {
  s_until : option string;
  s_while : option string;
  s_message : option string;
  s_delay : Z;
  s_times : Z
}.

Definition settings_default : settings :=
  {| s_until := Some "success"; s_while := None; s_message := None;
     s_delay := DEFAULT_DELAY; s_times := DEFAULT_TIMES |}.

(** How a step of [main] before the retry loop ends: it goes on, or
    [main] returns. *)
Inductive parsed : Type :=
| Go (s : settings)
| Leave (r : Z * shown).

(** [errno || endptr[0] || value < bound] *)
Definition bad_number (optarg : string) (bound : Z) : bool :=
  truthy (strtol_errno optarg)
  || negb (Ascii.eqb (deref (snd (strtol optarg))) NUL)
  || (fst (strtol optarg) <? bound).

(** Lines 382-431: the [switch] for one value [c] of [getopt_long], with
    its [optarg].  [None]: [status_match] did not return. *)
Definition option_case (name : string) (c : ascii) (optarg : string)
    (s : settings) : option parsed :=
  if Ascii.eqb c "d" then
    if bad_number optarg 0
    then Some (Leave (help name (Some BadDelay) EXIT_FAILURE))
    else Some (Go {| s_until := s_until s; s_while := s_while s;
                     s_message := s_message s;
                     s_delay := fst (strtol optarg);
                     s_times := s_times s |})
  else if Ascii.eqb c "m" then
    Some (Go {| s_until := s_until s; s_while := s_while s;
                s_message := Some optarg;
                s_delay := s_delay s; s_times := s_times s |})
  else if Ascii.eqb c "t" then
    if bad_number optarg (-1)
    then Some (Leave (help name (Some BadTimes) EXIT_FAILURE))
    else Some (Go {| s_until := s_until s; s_while := s_while s;
                     s_message := s_message s;
                     s_delay := s_delay s;
                     s_times := fst (strtol optarg) |})
  else if Ascii.eqb c "u" then
    r ← status_match 0 (Some optarg);
    if r =? -1
    then Some (Leave (help name (Some BadUntil) EXIT_FAILURE))
    else Some (Go {| s_until := Some optarg; s_while := None;
                     s_message := s_message s;
                     s_delay := s_delay s; s_times := s_times s |})
  else if Ascii.eqb c "w" then
    r ← status_match 0 (Some optarg);
    if r =? -1
    then Some (Leave (help name (Some BadWhile) EXIT_FAILURE))
    else Some (Go {| s_until := None; s_while := Some optarg;
                     s_message := s_message s;
                     s_delay := s_delay s; s_times := s_times s |})
  else if Ascii.eqb c "h" then Some (Leave (help name None 0))
  else if Ascii.eqb c "v" then Some (Leave version)
  else Some (Leave (help name None EXIT_FAILURE)).

(** Lines 380-433: the loop over what [getopt_long] returns, one pair of
    [c] and [optarg] a call, until it returns -1 at the end of the
    list. *)
Fixpoint parse_options (name : string) (opts : list (ascii * string))
    (s : settings) : option parsed :=
  match opts with
  | [] => Some (Go s)
  | (c, optarg) :: rest =>
      match option_case name c optarg s with
      | None => None
      | Some (Leave r) => Some (Leave r)
      | Some (Go s') => parse_options name rest s'
      end
  end.

(** Lines 370-437.  [has_command]: [optind != argc]. *)
Definition front (name : string) (opts : list (ascii * string))
    (has_command : bool) : option parsed :=
  match parse_options name opts settings_default with
  | Some (Go s) =>
      if has_command then Some (Go s)
      else Some (Leave (help name (Some NoCommand) EXIT_FAILURE))
  | other => other
  end.

Definition to_config (s : settings) : config :=
  {| repeat_until := s_until s; repeat_while := s_while s;
     delay := s_delay s; times := s_times s |}.

(** The whole of [main]: its return value, what [help] or [version]
    printed, and the trace of the retry loop. *)
Definition retry_main (name : string) (opts : list (ascii * string))
    (has_command : bool) (script : list attempt)
    : option (Z * option shown * list event) :=
  match front name opts has_command with
  | None => None
  | Some (Leave (code, out)) => Some (code, Some out, [])
  | Some (Go s) =>
      (fun o => (exit_status o, None, trace o)) <$> main (to_config s) script
  end.

(** What option parsing establishes. *)
Definition one_criterion (s : settings) : Prop :=
  (is_Some (s_until s) /\ s_while s = None)
  \/ (s_until s = None /\ is_Some (s_while s)).

Definition criterion_of (s : settings) : option string :=
  match s_until s with
  | Some c => Some c
  | None => s_while s
  end.

(** What [main] has checked of the settings when it reaches the retry
    loop (lines 388, 402, 408 and 415). *)
Definition sound (s : settings) : Prop :=
  0 <= s_delay s <= LONG_MAX
  /\ -1 <= s_times s <= LONG_MAX
  /\ one_criterion s
  /\ forall c, criterion_of s = Some c -> status_match 0 (Some c) <> Some (-1).

End Options.

(* ===================================================================== *)
(** ** Concrete scripts *)
(* ===================================================================== *)

Module Scenario.
Import Pump Retry.

(** The bytes "A", "B" and "x". *)
Definition A : list byte := [Byte.x41].
Definition B : list byte := [Byte.x42].
Definition x : list byte := [Byte.x78].

(** [poll] reports [flag] on one slot and nothing elsewhere. *)
Definition only (slot : nat) (flag : Z) : nat -> Z :=
  fun j => if Nat.eqb j slot then flag else 0.

(** The source of stream [i] has [data] to read. *)
Definition readable (i : nat) (data : list byte) : round :=
  {| r_poll := PollReady (only (OFFSET i READ_FD) POLLIN);
     r_read := fun _ => ReadOk data;
     r_write := fun _ => WriteOk 0 |}.

(** The source of stream [i] hangs up. *)
Definition hangup (i : nat) : round :=
  {| r_poll := PollReady (only (OFFSET i READ_FD) POLLHUP);
     r_read := fun _ => ReadOk [];
     r_write := fun _ => WriteOk 0 |}.

(** The sink of stream [i] takes up to [room] bytes. *)
Definition writable (i : nat) (room : nat) : round :=
  {| r_poll := PollReady (only (OFFSET i WRITE_FD) POLLOUT);
     r_read := fun _ => ReadOk [];
     r_write := fun _ => WriteOk room |}.

(** The sink of stream 0 reports an error while the source of stream 1
    hangs up. *)
Definition sink_error_and_hangup : round :=
  {| r_poll :=
       PollReady (fun j => if Nat.eqb j (OFFSET 0 WRITE_FD) then POLLERR
                           else if Nat.eqb j (OFFSET 1 READ_FD) then POLLHUP
                           else 0);
     r_read := fun _ => ReadOk [];
     r_write := fun _ => WriteOk 0 |}.

(** The options [--until=success --delay=0], any number of times. *)
Definition until_success : config :=
  {| repeat_until := Some "success"; repeat_while := None;
     delay := 0; times := -1 |}.

(** The command prints "A" and exits with status 1. *)
Definition prints_A_fails : attempt :=
  {| a_pipe := true; a_fork := true;
     a_rounds := [readable 1 A; hangup 1];
     a_wait := [WaitDone 256] |}.

(** The command prints "B" and exits with status 0. *)
Definition prints_B_succeeds : attempt :=
  {| a_pipe := true; a_fork := true;
     a_rounds := [readable 1 B; hangup 1];
     a_wait := [WaitDone 0] |}.

(** The command prints nothing and exits with status 0. *)
Definition silent_succeeds : attempt :=
  {| a_pipe := true; a_fork := true;
     a_rounds := [hangup 1];
     a_wait := [WaitDone 0] |}.

(** "x" arrives on standard input and is passed on; the command prints
    nothing and exits with status 1. *)
Definition relays_x_fails : attempt :=
  {| a_pipe := true; a_fork := true;
     a_rounds := [readable 0 x; writable 0 1; hangup 1];
     a_wait := [WaitDone 256] |}.

(** The command is ready to take its input, prints nothing and exits
    with status 0. *)
Definition takes_input_succeeds : attempt :=
  {| a_pipe := true; a_fork := true;
     a_rounds := [writable 0 1; hangup 1];
     a_wait := [WaitDone 0] |}.

(** The options [--until=success --times=3 --delay=0]. *)
Definition three_tries : config :=
  {| repeat_until := Some "success"; repeat_while := None;
     delay := 0; times := 3 |}.

(** The command [false]: no output, exit status 1. *)
Definition fails_silently : attempt :=
  {| a_pipe := true; a_fork := true;
     a_rounds := [hangup 1];
     a_wait := [WaitDone 256] |}.

(** The command prints "A" and exits with status 0. *)
Definition prints_A_succeeds : attempt :=
  {| a_pipe := true; a_fork := true;
     a_rounds := [readable 1 A; hangup 1];
     a_wait := [WaitDone 0] |}.

(** The command is killed by signal 9 (one [waitpid] is interrupted). *)
Definition killed_by_9 : attempt :=
  {| a_pipe := true; a_fork := true;
     a_rounds := [hangup 1];
     a_wait := [WaitIntr; WaitDone 9] |}.

(** [waitpid] fails. *)
Definition unwaitable : attempt :=
  {| a_pipe := true; a_fork := true;
     a_rounds := [hangup 1];
     a_wait := [WaitIntr; WaitFail] |}.

(** What [pump] returns in a first pass whose script is [[hangup 1]]. *)
Definition hung_up : result :=
  {| rc := 0;
     out_pumps :=
       [pump_zero;
        {| base := []; len := 0; offset := 0; read_closed := true;
           write_closed := true; exit_on_close := true; send_eof := true |}];
     out_trace := [EvPoll] |}.

(** A stream with one byte stored and nothing sent, both ends open. *)
Definition pending : pump_t :=
  {| base := x; len := 1; offset := 0; read_closed := false;
     write_closed := false; exit_on_close := false; send_eof := false |}.

(** A capture stream whose source has closed. *)
Definition capture_over : pump_t :=
  {| base := A; len := 1; offset := 0; read_closed := true;
     write_closed := true; exit_on_close := true; send_eof := true |}.

(** A stream with both ends closed and a byte that was never sent. *)
Definition shut : pump_t :=
  {| base := x; len := 1; offset := 0; read_closed := true;
     write_closed := true; exit_on_close := false; send_eof := true |}.

(** [pending] after its sink was given up. *)
Definition pending_cut : pump_t :=
  {| base := x; len := 1; offset := 0; read_closed := false;
     write_closed := true; exit_on_close := false; send_eof := false |}.

(** A stream whose source has ended with its one byte still to send, and
    the same stream after the byte went out. *)
Definition last_byte : pump_t :=
  {| base := x; len := 1; offset := 0; read_closed := true;
     write_closed := false; exit_on_close := false; send_eof := true |}.

Definition last_byte_sent : pump_t :=
  {| base := x; len := 1; offset := 1; read_closed := true;
     write_closed := true; exit_on_close := false; send_eof := true |}.

(** The descriptors after a [poll] that reports the sink of stream 0
    writable. *)
Definition fds_sink0_writable : list pollfd :=
  [ {| events := 0; revents := 0 |};
    {| events := POLLOUT; revents := POLLOUT |};
    {| events := 0; revents := 0 |};
    {| events := 0; revents := 0 |} ].

(** The capture stream after a first pass that read "A". *)
Definition capture_A : pump_t :=
  {| base := A; len := 1; offset := 0; read_closed := true;
     write_closed := true; exit_on_close := true; send_eof := true |}.

(** The capture stream after a first pass that read nothing. *)
Definition capture_empty : pump_t :=
  {| base := []; len := 0; offset := 0; read_closed := true;
     write_closed := true; exit_on_close := true; send_eof := true |}.

(** The relay stream holding "x", rewound. *)
Definition relay_x : pump_t :=
  {| base := x; len := 1; offset := 0; read_closed := false;
     write_closed := false; exit_on_close := false; send_eof := false |}.

End Scenario.

(* ===================================================================== *)
(** ** Runs worked out by hand *)

Module Runs.
Import Pump Retry Options Scenario.

(** The capture stream as [main] hands it to the first call of [pump]. *)
Definition capture_ready : pump_t :=
  {| base := []; len := 0; offset := 0; read_closed := false;
     write_closed := true; exit_on_close := true; send_eof := false |}.

(** What [pump] returns in the first pass of [relays_x_fails]. *)
Definition relayed : result :=
  {| rc := 0;
     out_pumps :=
       [ {| base := x; len := 1; offset := 1; read_closed := false;
            write_closed := false; exit_on_close := false;
            send_eof := false |};
         capture_empty ];
     out_trace := [EvPoll; EvRead 0 x; EvPoll; EvWrite 0 x; EvPoll] |}.

(** What [pump] returns in the first pass of [prints_A_fails]. *)
Definition read_A : result :=
  {| rc := 0;
     out_pumps := [pump_zero; capture_A];
     out_trace := [EvPoll; EvRead 1 A; EvPoll] |}.

(** [retry -u success -t 3 -d 0 false]. *)
Definition three_failures : outcome :=
  {| exit_status := 1;
     final_pumps := [pump_zero; capture_empty];
     trace := [EvSpawn; EvPoll; EvStderr []; EvNotice 1 0;
               EvSpawn; EvStderr []; EvNotice 1 0;
               EvSpawn; EvStderr []; EvNotice 1 0] |}.

(** [retry -u success -d 0 CMD] where CMD prints "A" and exits 0. *)
Definition printed_A : outcome :=
  {| exit_status := 0;
     final_pumps := [pump_zero; capture_A];
     trace := [EvSpawn; EvPoll; EvRead 1 A; EvPoll; EvStdout A] |}.

(** The rest of a run after a first pass that read "A": one more try,
    which exits 0. *)
Definition second_try_idle : outcome :=
  {| exit_status := 0;
     final_pumps := [pump_zero; capture_A];
     trace := [EvSpawn; EvStdout A] |}.

(** The run of [relays_x_fails] followed by [takes_input_succeeds]. *)
Definition relayed_once : outcome :=
  {| exit_status := 0;
     final_pumps := [relay_x; capture_empty];
     trace := [EvSpawn; EvPoll; EvRead 0 x; EvPoll; EvWrite 0 x; EvPoll;
               EvStderr []; EvNotice 1 0; EvSpawn; EvStdout []] |}.

(** The run of [unwaitable]. *)
Definition wait_failed : outcome :=
  {| exit_status := 1;
     final_pumps := [pump_zero; capture_empty];
     trace := [EvSpawn; EvPoll; EvDiag WaitpidFailed] |}.

(** [waitpid] reports a stopped child: status 0x7f. *)
Definition stopped : attempt :=
  {| a_pipe := true; a_fork := true;
     a_rounds := [hangup 1];
     a_wait := [WaitDone 127] |}.

(** The settings after [-w 1 -d 0]. *)
Definition while_1 : settings :=
  {| s_until := None; s_while := Some "1"; s_message := None;
     s_delay := 0; s_times := -1 |}.

(** The options [-t 3 -d 0] as [getopt_long] returns them. *)
Definition t3_d0 : list (ascii * string) :=
  [("t"%char, "3"); ("d"%char, "0")].

(** The sink of stream [i] is reported writable and [write] fails (the
    reader has gone: EPIPE). *)
Definition write_fails (i : nat) : round :=
  {| r_poll := PollReady (only (OFFSET i WRITE_FD) POLLOUT);
     r_read := fun _ => ReadOk [];
     r_write := fun _ => WriteFail |}.

(** The command is killed by signal 9 while "x", read from standard
    input, waits to be passed on: the write to its pipe fails. *)
Definition killed_mid_write : attempt :=
  {| a_pipe := true; a_fork := true;
     a_rounds := [readable 0 x; write_fails 0];
     a_wait := [WaitDone 9] |}.

(** The options [--until=success --times=1] with a delay of 2^32 + 1
    seconds. *)
Definition long_delay : config :=
  {| repeat_until := Some "success"; repeat_while := None;
     delay := 4294967297; times := 1 |}.

End Runs.

Module CriteriaFacts.
Import CStr Criteria.

(** stdpp keeps [String.append] from simplifying. *)
Ltac unfold_app := unfold String.append; fold String.append.

Lemma strlen_nonneg s : 0 <= strlen s.
Proof. induction s; cbn [strlen]; lia. Qed.

Lemma strlen_app a b : strlen (a +:+ b) = strlen a + strlen b.
Proof.
  induction a as [|c a IH]; unfold_app; cbn [strlen]; [lia|]. rewrite IH. lia.
Qed.

Lemma to_size_t_to_int z : 0 <= z < 2 ^ 31 -> to_size_t (to_int z) = z.
Proof.
  intros H. unfold to_size_t, to_int.
  change (2 ^ 31) with 2147483648 in *.
  change (2 ^ 32) with 4294967296.
  change (2 ^ 64) with 18446744073709551616.
  rewrite (Z.mod_small (z + 2147483648)) by lia.
  rewrite Z.mod_small; lia.
Qed.

Lemma strchr_app_comma tok rest :
  strchr tok "," = None ->
  strchr (tok +:+ String "," rest) "," = Some (String "," rest).
Proof.
  induction tok as [|c tok IH]; unfold_app; cbn [strchr]; [reflexivity|].
  destruct (Ascii.eqb c ","); [discriminate|]. exact IH.
Qed.

Lemma strncmp_app tok sfx lit n :
  n <= strlen tok -> strncmp (tok +:+ sfx) lit n = strncmp tok lit n.
Proof.
  revert lit n. induction tok as [|c tok IH]; intros lit n Hn; simpl in Hn.
  - unfold_app. cbn [strlen] in Hn.
    destruct sfx, lit; cbn [strncmp]; destruct (n <=? 0) eqn:E;
      try reflexivity; lia.
  - unfold_app. cbn [strlen] in Hn. cbn [strncmp].
    destruct (n <=? 0); [reflexivity|].
    destruct lit as [|c2 lit]; [reflexivity|].
    destruct (uchar c =? uchar c2); [|reflexivity].
    apply IH. lia.
Qed.

Lemma isdigit_deref_app s rest :
  isdigit (deref (s +:+ String "," rest)) = isdigit (deref s).
Proof. destruct s; reflexivity. Qed.

Lemma at_end_app s rest : at_end (s +:+ String "," rest) = at_end s.
Proof. destruct s; reflexivity. Qed.

Lemma digits_app s c rest acc :
  isdigit c = false ->
  digits (s +:+ String c rest) acc
  = (fst (digits s acc), snd (digits s acc) +:+ String c rest).
Proof.
  intros Hc. revert acc.
  induction s as [|a s IH]; intros acc; unfold_app; cbn [digits].
  - rewrite Hc. reflexivity.
  - destruct (isdigit a); [apply IH | reflexivity].
Qed.

Lemma isdigit_plain c :
  isdigit c = true ->
  isspace c = false /\ Ascii.eqb c "-" = false /\ Ascii.eqb c "+" = false.
Proof.
  unfold isdigit, isspace. intros H.
  apply andb_true_iff in H as [H1 H2].
  apply Z.leb_le in H1, H2.
  repeat split.
  - apply orb_false_iff; split; [apply Z.eqb_neq; lia|].
    apply andb_false_iff; right. apply Z.leb_gt. lia.
  - apply Ascii.eqb_neq. intros ->. vm_compute in H1. congruence.
  - apply Ascii.eqb_neq. intros ->. vm_compute in H1. congruence.
Qed.

(** Where [status_match] calls [strtol] the first character is a digit,
    so the subject sequence starts at once. *)
Lemma strtol_at_digit s :
  isdigit (deref s) = true ->
  strtol s = (Z.max LONG_MIN (Z.min LONG_MAX (fst (digits s 0))),
              snd (digits s 0)).
Proof.
  intros H. unfold strtol.
  destruct s as [|c s]; [discriminate|].
  simpl in H. destruct (isdigit_plain c H) as (Hs & Hm & Hp).
  cbn [skip_space]. rewrite Hs. cbn [deref]. rewrite Hm, Hp.
  cbn [deref]. rewrite H. destruct (digits (String c s) 0). reflexivity.
Qed.

Lemma status_match_body_returns status criteria :
  exists r, status_match_body status criteria = Return r.
Proof.
  unfold status_match_body.
  repeat match goal with
         | |- context [if ?b then _ else _] => destruct b eqn:?
         | |- context [let '(_, _) := ?p in _] => destruct p eqn:?
         end; eauto.
  exfalso.
  unfold at_end in *.
  repeat match goal with
         | H : _ || _ = false |- _ => apply orb_false_elim in H; destruct H
         | H : _ && _ = false |- _ => apply andb_false_elim in H; destruct H
         | H : negb _ = false |- _ => apply negb_false_iff in H
         end; congruence.
Qed.

Lemma status_match_loop_fuel fuel status criteria :
  status_match_loop fuel status criteria = status_match_loop 0 status criteria.
Proof.
  destruct criteria as [c|]; destruct fuel; simpl; try reflexivity.
  destruct (status_match_body_returns status c) as [r ->]. reflexivity.
Qed.

Lemma status_match_total status criteria :
  exists r, status_match status criteria = Some r.
Proof.
  unfold status_match. rewrite status_match_loop_fuel.
  destruct criteria as [c|]; simpl; eauto.
  destruct (status_match_body_returns status c) as [r ->]. eauto.
Qed.

Lemma at_end_false_app s rest :
  at_end s = false ->
  deref (s +:+ String "," rest) = deref s
  /\ advance (s +:+ String "," rest) = advance s +:+ String "," rest.
Proof. destruct s; [discriminate|]. intros _. split; reflexivity. Qed.

Lemma status_match_body_first_token status tok rest :
  strchr tok "," = None -> strlen tok < 2 ^ 31 ->
  status_match_body status (tok +:+ String "," rest)
  = status_match_body status tok.
Proof.
  intros Hc Hl.
  destruct (status_match_body_returns status tok) as [r Hr].
  rewrite Hr. revert Hr.
  unfold status_match_body.
  rewrite (strchr_app_comma _ _ Hc), Hc.
  unfold ptrdiff. rewrite strlen_app. cbn [strlen].
  replace (strlen tok + (1 + strlen rest) - (1 + strlen rest)) with (strlen tok) by lia.
  pose proof (strlen_nonneg tok).
  rewrite to_size_t_to_int by lia.
  rewrite !strncmp_app by lia.
  destruct (_ || _); [auto|].
  destruct (_ || _); [auto|].
  rewrite isdigit_deref_app.
  destruct (isdigit (deref tok)) eqn:Hd; [|auto]. cbn [negb].
  rewrite (strtol_at_digit tok Hd).
  rewrite (strtol_at_digit (tok +:+ String "," rest)) by (rewrite isdigit_deref_app; exact Hd).
  rewrite digits_app by reflexivity. cbn [fst snd].
  rewrite at_end_app.
  destruct (at_end (snd (digits tok 0))) eqn:He; [auto|].
  destruct (at_end_false_app _ rest He) as [-> ->].
  destruct (negb (Ascii.eqb _ "-")); [auto|].
  rewrite isdigit_deref_app.
  destruct (isdigit (deref (advance _))) eqn:Hd2; [|auto]. cbn [negb].
  rewrite (strtol_at_digit _ Hd2).
  rewrite (strtol_at_digit (_ +:+ String "," rest)) by (rewrite isdigit_deref_app; exact Hd2).
  rewrite digits_app by reflexivity. cbn [fst snd].
  rewrite at_end_app.
  destruct (at_end (snd (digits (advance _) 0))) eqn:He2; [auto|].
  destruct (at_end_false_app _ rest He2) as [-> _].
  destruct (_ && _); [auto|]. discriminate.
Qed.

(** X4: only the first token of a criteria string is ever looked at: a
    criteria string with a comma gives what its first token alone gives,
    whatever follows the comma. *)
Lemma status_match_first_token status tok rest :
  strchr tok "," = None -> strlen tok < 2 ^ 31 ->
  status_match status (Some (tok +:+ String "," rest))
  = status_match status (Some tok).
Proof.
  intros Hc Hl. unfold status_match.
  rewrite (status_match_loop_fuel _ _ (Some tok)).
  rewrite (status_match_loop_fuel _ _ (Some (tok +:+ _))).
  cbn [status_match_loop].
  rewrite status_match_body_first_token by assumption. reflexivity.
Qed.

Lemma status_match_first_token_witness :
  strchr "success" "," = None
  /\ status_match 4 (Some "success,4") = status_match 4 (Some "success").
Proof.
  split; [reflexivity|].
  apply (status_match_first_token 4 "success" "4"); reflexivity.
Defined.

(** *** Tokens that are numbers *)


Lemma digits_all d acc : all_digits d = true -> snd (digits d acc) = "".
Proof.
  revert acc. induction d as [|c d IH]; intros acc H; cbn in *; [reflexivity|].
  apply andb_true_iff in H as [-> H]. auto.
Qed.

Lemma digits_nonneg s acc : 0 <= acc -> 0 <= fst (digits s acc).
Proof.
  revert acc. induction s as [|c s IH]; intros acc H; cbn [digits fst]; [lia|].
  destruct (isdigit c) eqn:E; cbn [fst]; [|lia].
  apply IH. unfold isdigit in E. apply andb_true_iff in E as [E _].
  apply Z.leb_le in E. lia.
Qed.

Lemma clamp_nonneg v :
  0 <= v -> Z.max LONG_MIN (Z.min LONG_MAX v) = Z.min LONG_MAX v.
Proof. unfold LONG_MIN, LONG_MAX. change (2 ^ 63) with 9223372036854775808. lia. Qed.

Lemma all_digits_no_comma d : all_digits d = true -> strchr d "," = None.
Proof.
  induction d as [|c d IH]; intros H; cbn in *; [reflexivity|].
  apply andb_true_iff in H as [Hc H].
  destruct (Ascii.eqb_spec c ","); [subst; discriminate|]. auto.
Qed.

Lemma strchr_app_digits d c rest :
  all_digits d = true ->
  strchr (d +:+ String c rest) "," = strchr (String c rest) ",".
Proof.
  induction d as [|a d IH]; intros H; unfold_app; [reflexivity|].
  cbn in H. apply andb_true_iff in H as [Ha H].
  cbn [strchr]. destruct (Ascii.eqb_spec a ","); [subst; discriminate|]. auto.
Qed.

(** A token that starts with a digit is none of the four words. *)
Lemma digit_not_literal c s n :
  isdigit c = true -> 0 < n ->
  (strncmp (String c s) "success" n =? 0) || (strncmp (String c s) "true" n =? 0) = false
  /\ (strncmp (String c s) "fail" n =? 0) || (strncmp (String c s) "false" n =? 0) = false.
Proof.
  intros Hc Hn. unfold isdigit in Hc.
  apply andb_true_iff in Hc as [H1 H2]. apply Z.leb_le in H1, H2.
  cbn [strncmp]. destruct (Z.leb_spec n 0); [lia|].
  change (uchar "s") with 115. change (uchar "t") with 116.
  change (uchar "f") with 102.
  repeat match goal with
         | |- context [uchar c =? ?k] =>
             destruct (Z.eqb_spec (uchar c) k); [lia|]
         end.
  split; apply orb_false_iff; split; apply Z.eqb_neq; lia.
Qed.

(** X5: a token of decimal digits matches exactly the exit status that
    is equal to its value. *)
Lemma integer_token status d :
  d <> "" -> all_digits d = true -> strlen d < 2 ^ 31 ->
  status_match status (Some d) = Some (Z.b2z (status =? decimal d)).
Proof.
  intros Hne Hd Hl. unfold status_match.
  rewrite status_match_loop_fuel. cbn [status_match_loop].
  unfold status_match_body.
  rewrite (all_digits_no_comma d Hd).
  pose proof (strlen_nonneg d).
  rewrite to_size_t_to_int by lia.
  destruct d as [|c d]; [congruence|].
  cbn [all_digits] in Hd. apply andb_true_iff in Hd as [Hc Hd].
  destruct (digit_not_literal c d (strlen (String c d)) Hc) as [-> ->].
  { cbn [strlen]. pose proof (strlen_nonneg d). lia. }
  cbn [deref]. rewrite Hc. cbn [negb].
  rewrite strtol_at_digit by exact Hc.
  rewrite digits_all by (cbn [all_digits]; rewrite Hc; exact Hd).
  cbn [at_end deref orb]. change (Ascii.eqb NUL NUL) with true. cbn [orb].
  rewrite clamp_nonneg by (apply digits_nonneg; lia). reflexivity.
Qed.

Lemma integer_token_witness :
  all_digits "42" = true
  /\ status_match 42 (Some "42") = Some (Z.b2z (42 =? decimal "42")).
Proof.
  split; [reflexivity|].
  apply (integer_token 42 "42"); [discriminate | reflexivity | reflexivity].
Defined.

(** X6: a token [lo-hi] of two decimal numbers matches exactly the exit
    statuses from [lo] to [hi], both ends included. *)
Lemma range_token status lo hi :
  lo <> "" -> all_digits lo = true ->
  hi <> "" -> all_digits hi = true ->
  strlen (lo +:+ String "-" hi) < 2 ^ 31 ->
  status_match status (Some (lo +:+ String "-" hi))
  = Some (Z.b2z ((decimal lo <=? status) && (status <=? decimal hi))).
Proof.
  intros Hne1 Hd1 Hne2 Hd2 Hl. unfold status_match.
  rewrite status_match_loop_fuel. cbn [status_match_loop].
  unfold status_match_body.
  rewrite strchr_app_digits by exact Hd1.
  cbn [strchr]. change (Ascii.eqb "-" ",") with false. cbn iota.
  rewrite (all_digits_no_comma hi Hd2).
  pose proof (strlen_nonneg (lo +:+ String "-" hi)).
  rewrite to_size_t_to_int by lia.
  assert (Hpos : 0 < strlen (lo +:+ String "-" hi)).
  { rewrite strlen_app. cbn [strlen].
    pose proof (strlen_nonneg lo). pose proof (strlen_nonneg hi). lia. }
  revert Hpos. generalize (strlen (lo +:+ String "-" hi)). intros n Hn.
  destruct lo as [|c lo]; [congruence|].
  pose proof Hd1 as Hd1'.
  cbn [all_digits] in Hd1. apply andb_true_iff in Hd1 as [Hc Hd1].
  unfold_app.
  destruct (digit_not_literal c (lo +:+ String "-" hi) n Hc Hn) as [-> ->].
  cbn [deref]. rewrite Hc. cbn [negb].
  rewrite strtol_at_digit by exact Hc.
  change (String c (lo +:+ String "-" hi)) with (String c lo +:+ String "-" hi).
  rewrite digits_app by reflexivity. cbn [fst snd].
  rewrite (digits_all (String c lo)) by exact Hd1'.
  unfold_app.
  change (at_end (String "-" hi)) with false. cbn iota.
  cbn [deref advance]. change (Ascii.eqb "-" "-") with true. cbn [negb].
  destruct hi as [|c2 hi]; [congruence|].
  pose proof Hd2 as Hd2'.
  cbn [all_digits] in Hd2. apply andb_true_iff in Hd2 as [Hc2 Hd2].
  cbn [deref]. rewrite Hc2. cbn [negb].
  rewrite strtol_at_digit by exact Hc2.
  rewrite (digits_all (String c2 hi)) by exact Hd2'.
  cbn [at_end deref orb]. change (Ascii.eqb NUL NUL) with true. cbn [orb].
  rewrite !clamp_nonneg by (apply digits_nonneg; lia). reflexivity.
Qed.

Lemma range_token_witness :
  all_digits "1" = true /\ all_digits "5" = true
  /\ status_match 3 (Some "1-5")
     = Some (Z.b2z ((decimal "1" <=? 3) && (3 <=? decimal "5"))).
Proof.
  split; [reflexivity|]. split; [reflexivity|].
  apply (range_token 3 "1" "5");
    [discriminate | reflexivity | discriminate | reflexivity | reflexivity].
Defined.

Example range_3_7 status :
  status_match status (Some "3-7")
  = Some (Z.b2z ((3 <=? status) && (status <=? 7))).
Proof. reflexivity. Qed.

(** *** The four words *)

Lemma success_word status :
  status_match status (Some "success") = Some (Z.b2z (status =? 0)).
Proof. reflexivity. Qed.

Lemma true_word status :
  status_match status (Some "true") = Some (Z.b2z (status =? 0)).
Proof. reflexivity. Qed.

Lemma fail_word status :
  status_match status (Some "fail") = Some (Z.b2z (negb (status =? 0))).
Proof. reflexivity. Qed.

Lemma false_word status :
  status_match status (Some "false") = Some (Z.b2z (negb (status =? 0))).
Proof. reflexivity. Qed.

Example spec_examples :
  evaluate 0 "success" = Some Match /\ evaluate 1 "success" = Some NoMatch
  /\ evaluate 2 "fail" = Some Match /\ evaluate 5 "3-7" = Some Match
  /\ evaluate 8 "3-7" = Some NoMatch /\ evaluate 4 "abc" = Some Invalid.
Proof. repeat split; reflexivity. Qed.

(** *** Where the evaluator departs from its description *)

(** C2: a criteria string with several tokens is not evaluated as a
    disjunction.  For status 4 and the string "success,4" the second
    token matches, yet [status_match] returns 0 (no match): the first
    token decides (lemma [status_match_first_token]). *)
Theorem second_token_ignored :
  status_match 4 (Some "success,4") = Some 0
  /\ evaluate 4 "success,4" = Some NoMatch
  /\ evaluate 4 "4" = Some Match.
Proof. repeat split; reflexivity. Qed.

(** C3: a token that is none of the four words, a number or a range is
    not always invalid.  A proper prefix of a word, the empty token
    included, is taken for the word: "s", "tr" and "" match status 0 and
    "f" matches status 3, where the result should be invalid. *)
Theorem prefix_token_accepted :
  evaluate 0 "s" = Some Match /\ evaluate 0 "tr" = Some Match
  /\ evaluate 0 "" = Some Match /\ evaluate 3 "f" = Some Match
  /\ status_match 1 (Some "s") = Some 0.
Proof. repeat split; reflexivity. Qed.

End CriteriaFacts.

Module PumpFacts.
Import Pump.


Lemma arm_one_closed i p fds stay :
  closed p = true -> (arm_one i p fds stay).2 = stay.
Proof.
  unfold closed, arm_one. intros H.
  apply andb_true_iff in H as [-> ->]. reflexivity.
Qed.

Lemma arm_all_closed n i pumps fds :
  forallb closed pumps = true -> (arm n i pumps fds false).2 = false.
Proof.
  intros H. rewrite forallb_forall in H.
  revert i fds. induction n as [|n IH]; intros i fds; cbn [arm]; [reflexivity|].
  destruct (pumps !! i) as [p|] eqn:E; [|reflexivity].
  pose proof (arm_one_closed i p fds false) as Hone.
  destruct (arm_one i p fds false) as [fds' stay]. cbn [snd] in Hone.
  rewrite Hone.
  - destruct (read_closed p && exit_on_close p); [reflexivity | apply IH].
  - apply H. apply list_elem_of_In. eapply list_elem_of_lookup_2. exact E.
Qed.

Lemma arm_leaving n j i pumps fds stay p :
  (j <= i < j + n)%nat -> pumps !! i = Some p -> leaving p = true ->
  (arm n j pumps fds stay).2 = false.
Proof.
  intros Hr Hi Hp. revert j fds stay Hr.
  induction n as [|n IH]; intros j fds stay Hr; [lia|]. cbn [arm].
  destruct (pumps !! j) as [q|] eqn:E.
  - destruct (arm_one j q fds stay) as [fds' stay'].
    destruct (read_closed q && exit_on_close q) eqn:Eq; [reflexivity|].
    apply IH. destruct (decide (i = j)) as [->|]; [|lia].
    unfold leaving in Hp. congruence.
  - apply lookup_ge_None in E. apply lookup_lt_Some in Hi. lia.
Qed.

Lemma pump_unfold pumps fds script :
  pump pumps fds script =
  let '(fds, stay) := arm PUMPS 0 pumps fds false in
  if negb stay then at_once pumps
  else
    match script with
    | [] => None
    | r :: script' =>
        match poll fds (r_poll r) with
        | None =>
            Some {| rc := -1; out_pumps := pumps;
                    out_trace := [EvPoll; EvDiag CouldNotPoll] |}
        | Some fds =>
            match serve PUMPS 0 r fds pumps with
            | (tr, inr pumps') =>
                Some {| rc := -1; out_pumps := pumps';
                        out_trace := EvPoll :: tr |}
            | (tr, inl pumps') =>
                after (EvPoll :: tr) (pump pumps' fds script')
            end
        end
    end.
Proof. destruct script; reflexivity. Qed.

Lemma pump_not_staying pumps fds script :
  (arm PUMPS 0 pumps fds false).2 = false ->
  pump pumps fds script = at_once pumps.
Proof.
  intros H. rewrite pump_unfold.
  destruct (arm PUMPS 0 pumps fds false) as [fds' stay].
  cbn [snd] in H. subst stay. reflexivity.
Qed.

Lemma pump_leaving pumps fds script i p :
  (i < PUMPS)%nat -> pumps !! i = Some p -> leaving p = true ->
  pump pumps fds script = at_once pumps.
Proof.
  intros Hi Hp Hl. apply pump_not_staying.
  eapply arm_leaving; [|exact Hp|exact Hl]. lia.
Qed.

(** C9: when a stream has [read_closed] and [exit_on_close] set as an
    iteration of the loop starts, [pump] returns 0 at once: it does not
    call [poll] (no script is consumed, the trace is empty) and leaves
    every stream as it was, whatever the other streams hold. *)
Theorem pump_exits_on_close pumps fds script i p :
  (i < PUMPS)%nat -> pumps !! i = Some p ->
  read_closed p = true -> exit_on_close p = true ->
  pump pumps fds script
  = Some {| rc := 0; out_pumps := pumps; out_trace := [] |}.
Proof.
  intros Hi Hp Hr He. eapply pump_leaving; [exact Hi | exact Hp |].
  unfold leaving. rewrite Hr, He. reflexivity.
Qed.

Lemma pump_exits_on_close_witness :
  (1 < PUMPS)%nat
  /\ [Scenario.pending; Scenario.capture_over] !! 1%nat
     = Some Scenario.capture_over
  /\ pump [Scenario.pending; Scenario.capture_over] Retry.fds_fresh []
     = Some {| rc := 0;
               out_pumps := [Scenario.pending; Scenario.capture_over];
               out_trace := [] |}.
Proof.
  split; [unfold PUMPS; lia|]. split; [reflexivity|].
  apply (pump_exits_on_close _ _ _ 1%nat Scenario.capture_over);
    [unfold PUMPS; lia | reflexivity | reflexivity | reflexivity].
Defined.

(** C10: when every stream has [read_closed] and [write_closed] set,
    [pump] returns 0 at once: it does not call [poll] (no script is
    consumed, the trace is empty) and leaves the buffer, length, offset
    and flags of every stream as they were. *)
Theorem pump_all_closed pumps fds script :
  forallb closed pumps = true ->
  pump pumps fds script
  = Some {| rc := 0; out_pumps := pumps; out_trace := [] |}.
Proof. intros H. apply pump_not_staying. apply arm_all_closed. exact H. Qed.

Lemma pump_all_closed_witness :
  forallb closed [Scenario.shut; Scenario.shut] = true
  /\ pump [Scenario.shut; Scenario.shut] Retry.fds_fresh []
     = Some {| rc := 0; out_pumps := [Scenario.shut; Scenario.shut];
               out_trace := [] |}.
Proof.
  split; [reflexivity|]. apply (pump_all_closed _ _ []). reflexivity.
Defined.

(** *** One round *)


Ltac case_step :=
  match goal with
  | |- context [if ?b then _ else _] => destruct b eqn:?
  | |- context [match r_read ?r ?i with _ => _ end] => destruct (r_read r i)
  | |- context [match r_write ?r ?i with _ => _ end] => destruct (r_write r i)
  end; cbn.

Lemma serve_one_write_closed r fds i p :
  write_closed p = false ->
  write_closed (state_of (serve_one r fds i p)) = true ->
  drained (state_of (serve_one r fds i p)) \/ sink_error fds i = true.
Proof.
  intros Hw. unfold serve_one, sink_error.
  destruct (has (revents_at fds (OFFSET i WRITE_FD)) POLLERR
            || has (revents_at fds (OFFSET i WRITE_FD)) POLLNVAL);
    [right; reflexivity|].
  intros H. left. revert H.
  unfold and_then, do_read, do_write, drained.
  repeat case_step; intros; try congruence;
    repeat match goal with
           | H : _ && _ = true |- _ => apply andb_true_iff in H as [? ?]
           | H : (_ =? _) = true |- _ => apply Z.eqb_eq in H
           end; cbn in *; auto.
Qed.

Lemma serve_before n j r fds pumps i :
  (i < j)%nat -> streams (serve n j r fds pumps).2 !! i = pumps !! i.
Proof.
  revert j pumps. induction n as [|n IH]; intros j pumps Hi; cbn [serve];
    [reflexivity|].
  destruct (pumps !! j) as [q|]; [|reflexivity].
  destruct (serve_one r fds j q) as [tr q'|tr q'].
  - specialize (IH (S j) (<[j:=q']> pumps)).
    destruct (serve n (S j) r fds (<[j:=q']> pumps)) as [tr' res].
    cbn [snd] in *. rewrite IH by lia.
    apply list_lookup_insert_ne. lia.
  - cbn. apply list_lookup_insert_ne. lia.
Qed.

(** A round leaves a stream as it was or as [serve_one] leaves it. *)
Lemma serve_at n j r fds pumps i p :
  pumps !! i = Some p ->
  streams (serve n j r fds pumps).2 !! i = Some p
  \/ streams (serve n j r fds pumps).2 !! i
     = Some (state_of (serve_one r fds i p)).
Proof.
  revert j pumps. induction n as [|n IH]; intros j pumps Hi; cbn [serve];
    [left; exact Hi|].
  destruct (pumps !! j) as [q|] eqn:Ej; [|left; exact Hi].
  pose proof (lookup_lt_Some _ _ _ Ej) as Hj.
  destruct (decide (i = j)) as [->|Hne].
  - assert (q = p) as -> by congruence. right.
    destruct (serve_one r fds j p) as [tr q'|tr q'] eqn:Es; cbn [state_of].
    + pose proof (serve_before n (S j) r fds (<[j:=q']> pumps) j) as Hb.
      destruct (serve n (S j) r fds (<[j:=q']> pumps)) as [tr' res].
      cbn [snd] in *. rewrite Hb by lia.
      apply list_lookup_insert_eq. exact Hj.
    + cbn. apply list_lookup_insert_eq. exact Hj.
  - destruct (serve_one r fds j q) as [tr q'|tr q'].
    + specialize (IH (S j) (<[j:=q']> pumps)).
      destruct (serve n (S j) r fds (<[j:=q']> pumps)) as [tr' res].
      cbn [snd] in *. apply IH.
      rewrite list_lookup_insert_ne by congruence. exact Hi.
    + left. cbn. rewrite list_lookup_insert_ne by congruence. exact Hi.
Qed.

(** C4, as stated, fails: when [poll] reports an error on the sink of a
    stream, [pump] sets [write_closed] although the source is still open
    and the stored byte was never sent. *)
Lemma sink_error_closes_undrained :
  pump (Retry.prepare [Scenario.pending; Retry.pump_zero]) Retry.fds_fresh
    [Scenario.sink_error_and_hangup]
  = Some {| rc := 0;
            out_pumps := [Scenario.pending_cut; Scenario.capture_empty];
            out_trace := [EvPoll] |}
  /\ write_closed Scenario.pending = false
  /\ write_closed Scenario.pending_cut = true
  /\ ~ drained Scenario.pending_cut.
Proof.
  repeat split; try reflexivity. intros [H _]. discriminate H.
Qed.

(** *** What [poll] reports for a closed end *)

Lemma arm_one_frame i p fds stay k :
  k <> OFFSET i READ_FD -> k <> OFFSET i WRITE_FD ->
  (arm_one i p fds stay).1 !! k = fds !! k.
Proof.
  intros Hr Hw. unfold arm_one, set_events.
  destruct (negb (read_closed p)); destruct (negb (write_closed p) && _);
    cbn [fst]; rewrite ?list_lookup_alter_ne by congruence; reflexivity.
Qed.

Lemma arm_one_read_closed i p fds stay f :
  read_closed p = true ->
  (arm_one i p fds stay).1 !! OFFSET i READ_FD = Some f -> events f = 0.
Proof.
  intros Hp. unfold arm_one, set_events. rewrite Hp. cbn [negb].
  assert (OFFSET i WRITE_FD <> OFFSET i READ_FD)
    by (unfold OFFSET, READ_FD, WRITE_FD; lia).
  destruct (negb (write_closed p) && _); cbn [fst];
    rewrite ?list_lookup_alter_ne by assumption;
    rewrite list_lookup_alter_eq;
    destruct (fds !! OFFSET i READ_FD); cbn; intros [= <-]; reflexivity.
Qed.

Lemma arm_one_write_closed i p fds stay f :
  write_closed p = true ->
  (arm_one i p fds stay).1 !! OFFSET i WRITE_FD = Some f -> events f = 0.
Proof.
  intros Hp. unfold arm_one, set_events. rewrite Hp. cbn [negb andb].
  assert (OFFSET i READ_FD <> OFFSET i WRITE_FD)
    by (unfold OFFSET, READ_FD, WRITE_FD; lia).
  destruct (negb (read_closed p)); cbn [fst];
    rewrite ?list_lookup_alter_ne by assumption;
    rewrite list_lookup_alter_eq;
    rewrite ?list_lookup_alter_ne by assumption;
    destruct (fds !! OFFSET i WRITE_FD); cbn; intros [= <-]; reflexivity.
Qed.

Lemma arm_frame n j pumps fds stay k :
  (k < OFFSET j READ_FD)%nat -> (arm n j pumps fds stay).1 !! k = fds !! k.
Proof.
  revert j fds stay. induction n as [|n IH]; intros j fds stay Hk; cbn [arm];
    [reflexivity|].
  destruct (pumps !! j) as [q|]; [|reflexivity].
  pose proof (arm_one_frame j q fds stay k) as H1.
  destruct (arm_one j q fds stay) as [fds1 stay1]. cbn [fst] in H1.
  unfold OFFSET, READ_FD, WRITE_FD in *.
  destruct (read_closed q && exit_on_close q); cbn [fst].
  - apply H1; lia.
  - rewrite IH by (unfold OFFSET, READ_FD; lia). apply H1; lia.
Qed.

(** When the arming loop ends with [stay] set it has visited every
    stream, and the closed ends are not waited for. *)
Lemma arm_closed_events n j pumps fds stay fds' i p f :
  arm n j pumps fds stay = (fds', true) ->
  (j <= i < j + n)%nat -> pumps !! i = Some p ->
  (read_closed p = true ->
   fds' !! OFFSET i READ_FD = Some f -> events f = 0)
  /\ (write_closed p = true ->
      fds' !! OFFSET i WRITE_FD = Some f -> events f = 0).
Proof.
  intros Ha Hr Hp. revert j fds stay Ha Hr.
  induction n as [|n IH]; intros j fds stay Ha Hr; [lia|].
  cbn [arm] in Ha.
  destruct (pumps !! j) as [q|] eqn:Ej.
  2:{ apply lookup_ge_None in Ej. apply lookup_lt_Some in Hp. lia. }
  pose proof (arm_one_read_closed j q fds stay f) as H1.
  pose proof (arm_one_write_closed j q fds stay f) as H2.
  destruct (arm_one j q fds stay) as [fds1 stay1]. cbn [fst] in H1, H2.
  destruct (read_closed q && exit_on_close q); [congruence|].
  destruct (decide (i = j)) as [->|Hne].
  - assert (q = p) as -> by congruence.
    pose proof (arm_frame n (S j) pumps fds1 stay1) as Hf.
    rewrite Ha in Hf. cbn [fst] in Hf.
    rewrite !Hf by (unfold OFFSET, READ_FD, WRITE_FD; lia). auto.
  - eapply IH; [exact Ha | lia].
Qed.

Lemma masked_pollin c :
  has (Z.land c (Z.lor 0 (Z.lor POLLERR (Z.lor POLLHUP POLLNVAL)))) POLLIN
  = false.
Proof.
  unfold has. rewrite <- Z.land_assoc.
  change (Z.land _ POLLIN) with 0 at 1. rewrite Z.land_0_r. reflexivity.
Qed.

Lemma masked_pollout c :
  has (Z.land c (Z.lor 0 (Z.lor POLLERR (Z.lor POLLHUP POLLNVAL)))) POLLOUT
  = false.
Proof.
  unfold has. rewrite <- Z.land_assoc.
  change (Z.land _ POLLOUT) with 0 at 1. rewrite Z.land_0_r. reflexivity.
Qed.

Lemma poll_revents fds o fds' k :
  poll fds o = Some fds' ->
  revents_at fds' k = 0
  \/ exists cond f, fds !! k = Some f
       /\ revents_at fds' k
          = Z.land (cond k)
              (Z.lor (events f) (Z.lor POLLERR (Z.lor POLLHUP POLLNVAL))).
Proof.
  destruct o as [|cond]; cbn [poll]; intros [= <-].
  unfold revents_at. rewrite list_lookup_imap.
  destruct (fds !! k) as [f|]; cbn; [right; eauto | left; reflexivity].
Qed.

(** A stream whose sink is closed is not offered for writing, and one
    whose source is closed is not offered for reading. *)
Lemma closed_ends_quiet pumps fds fds1 o fds2 i p :
  arm PUMPS 0 pumps fds false = (fds1, true) ->
  poll fds1 o = Some fds2 ->
  (i < PUMPS)%nat -> pumps !! i = Some p ->
  (read_closed p = true ->
   has (revents_at fds2 (OFFSET i READ_FD)) POLLIN = false)
  /\ (write_closed p = true ->
      has (revents_at fds2 (OFFSET i WRITE_FD)) POLLOUT = false).
Proof.
  intros Ha Ho Hi Hp.
  split; intros Hc.
  - destruct (poll_revents _ _ _ (OFFSET i READ_FD) Ho)
      as [->|(cond & f & Hf & ->)]; [reflexivity|].
    destruct (arm_closed_events _ _ _ _ _ _ i p f Ha) as [H _];
      [lia | exact Hp |].
    rewrite (H Hc Hf). apply masked_pollin.
  - destruct (poll_revents _ _ _ (OFFSET i WRITE_FD) Ho)
      as [->|(cond & f & Hf & ->)]; [reflexivity|].
    destruct (arm_closed_events _ _ _ _ _ _ i p f Ha) as [_ H];
      [lia | exact Hp |].
    rewrite (H Hc Hf). apply masked_pollout.
Qed.

(** *** Properties kept by every round *)

Lemma serve_length n j r fds pumps :
  length (streams (serve n j r fds pumps).2) = length pumps.
Proof.
  revert j pumps. induction n as [|n IH]; intros j pumps; cbn [serve];
    [reflexivity|].
  destruct (pumps !! j) as [q|]; [|reflexivity].
  destruct (serve_one r fds j q) as [tr q'|tr q'].
  - specialize (IH (S j) (<[j:=q']> pumps)).
    destruct (serve n (S j) r fds (<[j:=q']> pumps)) as [tr' res].
    cbn [snd] in *. rewrite IH. apply length_insert.
  - cbn. apply length_insert.
Qed.

(** The cases of one call of [pump] that returns. *)
Lemma pump_cases pumps fds script res :
  pump pumps fds script = Some res ->
  (res = {| rc := 0; out_pumps := pumps; out_trace := [] |}
   /\ (arm PUMPS 0 pumps fds false).2 = false)
  \/ (exists fds1 r script',
        script = r :: script'
        /\ arm PUMPS 0 pumps fds false = (fds1, true)
        /\ ((poll fds1 (r_poll r) = None
             /\ res = {| rc := -1; out_pumps := pumps;
                         out_trace := [EvPoll; EvDiag CouldNotPoll] |})
            \/ exists fds2,
                poll fds1 (r_poll r) = Some fds2
                /\ ((exists tr pumps',
                       serve PUMPS 0 r fds2 pumps = (tr, inr pumps')
                       /\ res = {| rc := -1; out_pumps := pumps';
                                   out_trace := EvPoll :: tr |})
                    \/ (exists tr pumps' res',
                          serve PUMPS 0 r fds2 pumps = (tr, inl pumps')
                          /\ pump pumps' fds2 script' = Some res'
                          /\ res = {| rc := rc res';
                                      out_pumps := out_pumps res';
                                      out_trace :=
                                        (EvPoll :: tr) ++ out_trace res' |})))).
Proof.
  rewrite pump_unfold.
  destruct (arm PUMPS 0 pumps fds false) as [fds1 [|]] eqn:Ea; cbn [negb snd].
  2:{ intros [= <-]. left. split; reflexivity. }
  destruct script as [|r script']; [discriminate|].
  intros H. right. exists fds1, r, script'.
  split; [reflexivity|]. split; [reflexivity|].
  destruct (poll fds1 (r_poll r)) as [fds2|].
  2:{ injection H as <-. left. split; reflexivity. }
  right. exists fds2. split; [reflexivity|].
  destruct (serve PUMPS 0 r fds2 pumps) as [tr [pumps'|pumps']].
  - right. unfold after in H.
    destruct (pump pumps' fds2 script') as [res'|] eqn:Hr; [|discriminate].
    injection H as <-. exists tr, pumps', res'. auto.
  - left. injection H as <-. eauto.
Qed.

Lemma pump_length script pumps fds res :
  pump pumps fds script = Some res ->
  length (out_pumps res) = length pumps.
Proof.
  revert pumps fds res. induction script as [|r0 script IH];
    intros pumps fds res H;
    apply pump_cases in H
      as [[-> _]|(fds1 & r & script' & Hs & Ha &
                  [[_ ->]|(fds2 & Hp &
                    [(tr & pumps' & Hv & ->)
                    |(tr & pumps' & res' & Hv & Hr & ->)])])];
    try discriminate; try reflexivity; injection Hs as <- <-; cbn.
  - pose proof (serve_length PUMPS 0 r0 fds2 pumps) as Hl.
    rewrite Hv in Hl. exact Hl.
  - rewrite (IH _ _ _ Hr).
    pose proof (serve_length PUMPS 0 r0 fds2 pumps) as Hl.
    rewrite Hv in Hl. exact Hl.
Qed.

Section Pointwise.
Variable R : pump_t -> pump_t -> Prop.
Hypothesis R_refl : forall p, R p p.
Hypothesis R_trans : forall p q s, R p q -> R q s -> R p s.
Hypothesis R_serve : forall r fds i p, R p (state_of (serve_one r fds i p)).

Lemma serve_pointwise n j r fds pumps i p :
  pumps !! i = Some p ->
  exists q, streams (serve n j r fds pumps).2 !! i = Some q /\ R p q.
Proof.
  intros Hp. destruct (serve_at n j r fds pumps i p Hp) as [H|H];
    eexists; split; eauto.
Qed.

Lemma pump_pointwise script pumps fds res i p :
  pump pumps fds script = Some res -> pumps !! i = Some p ->
  exists q, out_pumps res !! i = Some q /\ R p q.
Proof.
  revert pumps fds res p. induction script as [|r0 script IH];
    intros pumps fds res p H Hp;
    apply pump_cases in H
      as [[-> _]|(fds1 & r & script' & Hs & Ha &
                  [[_ ->]|(fds2 & Ho &
                    [(tr & pumps' & Hv & ->)
                    |(tr & pumps' & res' & Hv & Hr & ->)])])];
    try discriminate; cbn [out_pumps]; eauto; injection Hs as <- <-.
  - destruct (serve_pointwise PUMPS 0 r0 fds2 pumps i p Hp) as (q & Hq & HR).
    rewrite Hv in Hq. eauto.
  - destruct (serve_pointwise PUMPS 0 r0 fds2 pumps i p Hp) as (q & Hq & HR).
    rewrite Hv in Hq. cbn in Hq.
    destruct (IH _ _ _ _ Hr Hq) as (q' & Hq' & HR'). eauto.
Qed.
End Pointwise.


Lemma serve_one_grows r fds i p : grows p (state_of (serve_one r fds i p)).
Proof.
  unfold grows, serve_one, and_then, do_read, do_write.
  repeat case_step; auto.
Qed.

Lemma grows_refl p : grows p p.
Proof. unfold grows; auto. Qed.

Lemma grows_trans p q s : grows p q -> grows q s -> grows p s.
Proof. unfold grows. intros (-> & ? & ?) (-> & ? & ?); auto. Qed.

Lemma serve_grows n j r fds pumps i p :
  pumps !! i = Some p ->
  exists q, streams (serve n j r fds pumps).2 !! i = Some q /\ grows p q.
Proof. apply serve_pointwise; [apply grows_refl | apply serve_one_grows]. Qed.

Lemma pump_grows script pumps fds res i p :
  pump pumps fds script = Some res -> pumps !! i = Some p ->
  exists q, out_pumps res !! i = Some q /\ grows p q.
Proof.
  apply pump_pointwise;
    [apply grows_refl | apply grows_trans | apply serve_one_grows].
Qed.


Lemma serve_one_wf r fds i p : wf p -> wf (state_of (serve_one r fds i p)).
Proof.
  unfold wf, serve_one, and_then, do_read, do_write.
  intros [Ho Hl].
  repeat case_step; rewrite ?length_app, ?length_take, ?length_drop in *;
    lia.
Qed.

(** X10: [pump] keeps the cursor of every stream inside its buffer: when
    [0 <= offset <= len] and [len] is the number of bytes stored hold at
    the call, they hold at the return. *)
Lemma pump_keeps_wf script pumps fds res i p :
  pump pumps fds script = Some res -> pumps !! i = Some p -> wf p ->
  exists q, out_pumps res !! i = Some q /\ wf q.
Proof.
  intros H Hp Hw.
  pose proof (pump_pointwise (fun p q => wf p -> wf q)
                (fun _ H => H) (fun _ _ _ H1 H2 H => H2 (H1 H)) serve_one_wf
                script pumps fds res i p H Hp) as (q & Hq & HR).
  eauto.
Qed.

Lemma pump_keeps_wf_witness :
  pump (Retry.prepare Retry.pumps_zero) Retry.fds_fresh
    (Retry.a_rounds Scenario.relays_x_fails)
  = Some Runs.relayed
  /\ wf Retry.pump_zero
  /\ exists q, out_pumps Runs.relayed !! 0%nat = Some q /\ wf q.
Proof.
  assert (wf Retry.pump_zero) as Hw by (split; [cbn; lia | reflexivity]).
  split; [reflexivity|]. split; [exact Hw|].
  apply (pump_keeps_wf (Retry.a_rounds Scenario.relays_x_fails)
           (Retry.prepare Retry.pumps_zero) Retry.fds_fresh Runs.relayed
           0%nat Retry.pump_zero); [reflexivity | reflexivity | exact Hw].
Defined.

Lemma serve_one_retains r fds i p :
  retains p (state_of (serve_one r fds i p)).
Proof.
  unfold retains, serve_one, and_then, do_read, do_write.
  repeat case_step;
    first [ exists []; symmetry; apply app_nil_r | eexists; reflexivity ].
Qed.

(** Bytes once read stay in the buffer, in order, for the rest of the
    call. *)
Lemma pump_retains script pumps fds res i p :
  pump pumps fds script = Some res -> pumps !! i = Some p ->
  exists q, out_pumps res !! i = Some q /\ retains p q.
Proof.
  apply pump_pointwise.
  - intros p0. exists []. symmetry. apply app_nil_r.
  - intros p0 q s [m1 H1] [m2 H2]. exists (m1 ++ m2).
    rewrite H2, H1. symmetry. apply app_assoc.
  - apply serve_one_retains.
Qed.

(** *** What reaches a sink *)


Lemma wrote_app k a b : wrote k (a ++ b) = wrote k a || wrote k b.
Proof. apply existsb_app. Qed.

Lemma serve_one_silent r fds i p k :
  i <> k \/ has (revents_at fds (OFFSET i WRITE_FD)) POLLOUT = false ->
  wrote k (trace_of (serve_one r fds i p)) = false.
Proof.
  unfold serve_one, and_then, do_read, do_write.
  intros [H|H].
  - apply Nat.eqb_neq in H. repeat case_step; rewrite ?H; reflexivity.
  - rewrite H. repeat case_step; reflexivity.
Qed.

Lemma serve_silent n j r fds pumps k :
  has (revents_at fds (OFFSET k WRITE_FD)) POLLOUT = false ->
  wrote k (serve n j r fds pumps).1 = false.
Proof.
  intros Hk. revert j pumps.
  induction n as [|n IH]; intros j pumps; cbn [serve]; [reflexivity|].
  destruct (pumps !! j) as [q|]; [|reflexivity].
  assert (wrote k (trace_of (serve_one r fds j q)) = false) as Hq.
  { apply serve_one_silent. destruct (decide (j = k)) as [->|]; auto. }
  destruct (serve_one r fds j q) as [tr q'|tr q']; cbn [trace_of] in Hq.
  - specialize (IH (S j) (<[j:=q']> pumps)).
    destruct (serve n (S j) r fds (<[j:=q']> pumps)) as [tr' res].
    cbn [fst] in *. rewrite wrote_app, Hq, IH. reflexivity.
  - exact Hq.
Qed.

(** While the sink of a stream counts as closed, [pump] writes nothing
    to it. *)
Lemma pump_silent script pumps fds res k p :
  (k < PUMPS)%nat -> pumps !! k = Some p -> write_closed p = true ->
  pump pumps fds script = Some res ->
  wrote k (out_trace res) = false.
Proof.
  intros Hk. revert pumps fds res p.
  induction script as [|r0 script IH]; intros pumps fds res p Hp Hc H;
    apply pump_cases in H
      as [[-> _]|(fds1 & r & script' & Hs & Ha &
                  [[_ ->]|(fds2 & Ho &
                    [(tr & pumps' & Hv & ->)
                    |(tr & pumps' & res' & Hv & Hr & ->)])])];
    try discriminate; try reflexivity; injection Hs as <- <-;
    destruct (closed_ends_quiet _ _ _ _ _ k p Ha Ho Hk Hp) as [_ Hq];
    specialize (Hq Hc);
    pose proof (serve_silent PUMPS 0 r0 fds2 pumps k Hq) as Hsil;
    rewrite Hv in Hsil; cbn [fst] in Hsil; cbn [out_trace].
  - exact Hsil.
  - destruct (serve_grows PUMPS 0 r0 fds2 pumps k p Hp)
      as (q & Hq' & _ & _ & Hw).
    rewrite Hv in Hq'. cbn in Hq'.
    change ((EvPoll :: tr) ++ out_trace res')
      with ([EvPoll] ++ tr ++ out_trace res').
    rewrite !wrote_app, Hsil.
    rewrite (IH _ _ _ q Hq' (Hw Hc) Hr). reflexivity.
Qed.

(** *** How a successful call ends *)

Lemma pump_success_not_staying script pumps fds res :
  pump pumps fds script = Some res -> rc res = 0 ->
  exists fds', (arm PUMPS 0 (out_pumps res) fds' false).2 = false.
Proof.
  revert pumps fds res.
  induction script as [|r0 script IH]; intros pumps fds res H;
    apply pump_cases in H
      as [[-> Hn]|(fds1 & r & script' & Hs & Ha &
                  [[_ ->]|(fds2 & Ho &
                    [(tr & pumps' & Hv & ->)
                    |(tr & pumps' & res' & Hv & Hr & ->)])])];
    try discriminate; cbn [rc out_pumps]; intros Hrc;
    try discriminate; eauto.
  injection Hs as <- <-. eauto.
Qed.

(** With [exit_on_close] on the second stream only, the loop is left
    only when the source of the second stream has closed. *)
Lemma not_staying_second_closed p0 p1 fds :
  exit_on_close p0 = false ->
  (arm PUMPS 0 [p0; p1] fds false).2 = false ->
  read_closed p1 = true.
Proof.
  intros H0. cbn [arm PUMPS lookup list_lookup].
  unfold arm_one. rewrite H0, andb_false_r.
  destruct (read_closed p1); [reflexivity|]. cbn [negb andb].
  repeat case_step; discriminate.
Qed.

Lemma pump_closes_second script pumps fds res p0 :
  length pumps = PUMPS -> pumps !! 0%nat = Some p0 ->
  exit_on_close p0 = false ->
  pump pumps fds script = Some res -> rc res = 0 ->
  exists p1, out_pumps res !! 1%nat = Some p1 /\ read_closed p1 = true.
Proof.
  intros Hl Hp0 He H Hrc.
  pose proof (pump_length _ _ _ _ H) as Hl'.
  destruct (pump_grows _ _ _ _ _ _ H Hp0) as (q0 & Hq0 & Heq & _).
  destruct (pump_success_not_staying _ _ _ _ H Hrc) as (fds' & Hn).
  rewrite Hl in Hl'.
  destruct (out_pumps res) as [|q0' [|q1 [|]]]; try discriminate.
  injection Hq0 as ->. exists q1. split; [reflexivity|].
  eapply not_staying_second_closed; [|exact Hn]. congruence.
Qed.

(** *** What [pump] prints *)

Lemma serve_one_prints_nothing r fds i p :
  delivered (trace_of (serve_one r fds i p)) = []
  /\ diverted (trace_of (serve_one r fds i p)) = [].
Proof.
  unfold serve_one, and_then, do_read, do_write.
  repeat case_step; split; reflexivity.
Qed.

Lemma serve_prints_nothing n j r fds pumps :
  delivered (serve n j r fds pumps).1 = []
  /\ diverted (serve n j r fds pumps).1 = [].
Proof.
  revert j pumps. induction n as [|n IH]; intros j pumps; cbn [serve];
    [split; reflexivity|].
  destruct (pumps !! j) as [q|]; [|split; reflexivity].
  pose proof (serve_one_prints_nothing r fds j q) as [H1 H2].
  destruct (serve_one r fds j q) as [tr q'|tr q']; cbn [trace_of] in H1, H2.
  - specialize (IH (S j) (<[j:=q']> pumps)).
    destruct (serve n (S j) r fds (<[j:=q']> pumps)) as [tr' res].
    cbn [fst] in *. destruct IH as [I1 I2].
    unfold delivered, diverted in *. rewrite !omap_app, H1, H2, I1, I2.
    split; reflexivity.
  - split; assumption.
Qed.

Lemma pump_prints_nothing script pumps fds res :
  pump pumps fds script = Some res ->
  delivered (out_trace res) = [] /\ diverted (out_trace res) = [].
Proof.
  revert pumps fds res.
  induction script as [|r0 script IH]; intros pumps fds res H;
    apply pump_cases in H
      as [[-> _]|(fds1 & r & script' & Hs & Ha &
                  [[_ ->]|(fds2 & Ho &
                    [(tr & pumps' & Hv & ->)
                    |(tr & pumps' & res' & Hv & Hr & ->)])])];
    try discriminate; try (split; reflexivity); injection Hs as <- <-;
    pose proof (serve_prints_nothing PUMPS 0 r0 fds2 pumps) as [H1 H2];
    rewrite Hv in H1, H2; cbn [fst] in H1, H2; cbn [out_trace].
  - split; assumption.
  - destruct (IH _ _ _ Hr) as [I1 I2].
    change ((EvPoll :: tr) ++ out_trace res')
      with ([EvPoll] ++ tr ++ out_trace res').
    unfold delivered, diverted in *. rewrite !omap_app, H1, H2, I1, I2.
    split; reflexivity.
Qed.

End PumpFacts.

Module RetryFacts.
Import Criteria Pump Retry PumpFacts.

(** *** Decoding the wait status *)

Lemma signaled_not_exited st : WIFSIGNALED st = true -> WIFEXITED st = false.
Proof.
  unfold WIFSIGNALED, WIFEXITED, WTERMSIG.
  destruct (Z.land st 127 =? 0) eqn:E; [|reflexivity].
  apply Z.eqb_eq in E. rewrite E. discriminate.
Qed.

(** The status of a command killed by signal [n], with or without a core
    dump. *)
Lemma signal_status n core :
  1 <= n <= 126 -> core = 0 \/ core = 128 ->
  WIFSIGNALED (n + core) = true /\ WTERMSIG (n + core) = n.
Proof.
  intros Hn Hc.
  assert (Z.land (n + core) 127 = n) as E.
  { change 127 with (Z.ones 7). rewrite Z.land_ones by lia.
    change (2 ^ 7) with 128.
    destruct Hc as [-> | ->].
    - rewrite Z.add_0_r. apply Z.mod_small. lia.
    - replace (n + 128) with (n + 1 * 128) by lia.
      rewrite Z.mod_add by lia. apply Z.mod_small. lia. }
  unfold WIFSIGNALED, WTERMSIG. rewrite E. split; [|reflexivity].
  unfold to_schar. rewrite Z.mod_small by lia.
  rewrite Z.shiftr_div_pow2 by lia. change (2 ^ 1) with 2.
  apply Z.ltb_lt.
  assert (1 <= (n + 1 + 128 - 128) / 2); [|lia].
  apply Z.div_le_lower_bound; lia.
Qed.

(** The status of a command that exits with [code]. *)
Lemma exit_code_status code :
  0 <= code <= 255 ->
  WIFEXITED (Z.shiftl code 8) = true /\ WEXITSTATUS (Z.shiftl code 8) = code.
Proof.
  intros Hc. unfold WIFEXITED, WEXITSTATUS, WTERMSIG. split.
  - apply Z.eqb_eq. change 127 with (Z.ones 7).
    rewrite Z.land_ones, Z.shiftl_mul_pow2 by lia.
    change (2 ^ 8) with (2 * 2 ^ 7). rewrite Z.mul_assoc.
    apply Z.mod_mul. lia.
  - change 65280 with (Z.shiftl 255 8).
    rewrite <- Z.shiftl_land, Z.shiftr_shiftl_l by lia.
    change (8 - 8) with 0. rewrite Z.shiftl_0_r.
    change 255 with (Z.ones 8). rewrite Z.land_ones by lia.
    apply Z.mod_small. change (2 ^ 8) with 256. lia.
Qed.

(** *** A pass that gets as far as [waitpid] *)

Ltac enter_pass Ht Hp Hf Hr Hrc :=
  cbn [main_loop]; apply Z.eqb_neq in Ht; rewrite Ht, Hp, Hf; cbn [negb];
  rewrite Hr, Hrc; change (0 =? 0) with true; cbn [negb].

(** C7, as the code has it: in a pass whose call of [pump] returned 0
    and whose [waitpid] reports a child killed by a signal, [main]
    returns the signal number plus 128 and the run is over: nothing
    follows the pass's call of [pump] in the trace, whatever the
    criteria, the number of tries left and the rest of the script. *)
Theorem signal_ends_run cfg times pumps status a script r st :
  times <> 0 -> a_pipe a = true -> a_fork a = true ->
  pump (prepare pumps) fds_fresh (a_rounds a) = Some r -> rc r = 0 ->
  reap (a_wait a) = Some (Some st) -> WIFSIGNALED st = true ->
  main_loop cfg times pumps status (a :: script)
  = Some {| exit_status := WTERMSIG st + 128;
            final_pumps := rewind (out_pumps r);
            trace := EvSpawn :: out_trace r |}.
Proof.
  intros Ht Hp Hf Hr Hrc Hw Hs. enter_pass Ht Hp Hf Hr Hrc.
  rewrite Hw, (signaled_not_exited _ Hs), Hs. reflexivity.
Qed.

Lemma signal_ends_run_witness :
  WIFSIGNALED 9 = true
  /\ main_loop Scenario.until_success (-1) pumps_zero 0
       [Scenario.killed_by_9; Scenario.silent_succeeds]
     = Some {| exit_status := 137;
               final_pumps := rewind (out_pumps Scenario.hung_up);
               trace := [EvSpawn; EvPoll] |}.
Proof.
  split; [reflexivity|].
  apply (signal_ends_run Scenario.until_success (-1) pumps_zero 0
           Scenario.killed_by_9 [Scenario.silent_succeeds]
           Scenario.hung_up 9);
    [lia | reflexivity | reflexivity | reflexivity | reflexivity
     | reflexivity | reflexivity].
Defined.

(** C7, as stated, fails: the command is killed by signal 9 while a byte
    read from standard input waits to be passed on; the write to its
    pipe fails, [pump] returns -1 and [main] returns 1 without calling
    [waitpid], not 9 + 128. *)
Lemma signal_lost_to_write_failure :
  reap (a_wait Runs.killed_mid_write) = Some (Some 9)
  /\ WIFSIGNALED 9 = true /\ WTERMSIG 9 = 9
  /\ main Scenario.until_success
       [Runs.killed_mid_write; Scenario.silent_succeeds]
     = Some {| exit_status := 1;
               final_pumps := [Scenario.relay_x; Runs.capture_ready];
               trace := [EvSpawn; EvPoll; EvRead 0 Scenario.x; EvPoll;
                         EvDiag CouldNotWrite] |}
  /\ 1 <> 9 + 128.
Proof. repeat split; try reflexivity. discriminate. Qed.

(** C8, as the code has it: when [waitpid] fails for another reason than
    an interruption, the run is over and [main] returns EXIT_FAILURE, the
    code of every other fatal error. *)
Theorem wait_failure_ends_run cfg times pumps status a script r :
  times <> 0 -> a_pipe a = true -> a_fork a = true ->
  pump (prepare pumps) fds_fresh (a_rounds a) = Some r -> rc r = 0 ->
  reap (a_wait a) = Some None ->
  main_loop cfg times pumps status (a :: script)
  = Some {| exit_status := EXIT_FAILURE;
            final_pumps := rewind (out_pumps r);
            trace := EvSpawn :: out_trace r ++ [EvDiag WaitpidFailed] |}.
Proof.
  intros Ht Hp Hf Hr Hrc Hw. enter_pass Ht Hp Hf Hr Hrc.
  rewrite Hw. reflexivity.
Qed.

Lemma wait_failure_ends_run_witness :
  reap (a_wait Scenario.unwaitable) = Some None
  /\ main_loop Scenario.until_success (-1) pumps_zero 0
       [Scenario.unwaitable; Scenario.silent_succeeds]
     = Some {| exit_status := 1;
               final_pumps := rewind (out_pumps Scenario.hung_up);
               trace := [EvSpawn; EvPoll; EvDiag WaitpidFailed] |}.
Proof.
  split; [reflexivity|].
  apply (wait_failure_ends_run Scenario.until_success (-1) pumps_zero 0
           Scenario.unwaitable [Scenario.silent_succeeds] Scenario.hung_up);
    [lia | reflexivity | reflexivity | reflexivity | reflexivity
     | reflexivity].
Defined.

(** C8, as stated, fails: a failed [waitpid] ends the run with exit code
    1, not with EX_OSERR. *)
Lemma wait_failure_exits_1 :
  exit_status <$> main Scenario.until_success
                    [Scenario.unwaitable; Scenario.silent_succeeds]
  = Some 1
  /\ EXIT_FAILURE = 1 /\ EX_OSERR <> 1.
Proof. repeat split; try reflexivity. discriminate. Qed.

(** X21: EX_OSERR is what [main] returns when the status is neither an
    exit nor a death by signal: the run ends in that pass, with nothing
    printed after the pass's [pump]. *)
Lemma odd_status_ends_run cfg times pumps status a script r st :
  times <> 0 -> a_pipe a = true -> a_fork a = true ->
  pump (prepare pumps) fds_fresh (a_rounds a) = Some r -> rc r = 0 ->
  reap (a_wait a) = Some (Some st) ->
  WIFEXITED st = false -> WIFSIGNALED st = false ->
  main_loop cfg times pumps status (a :: script)
  = Some {| exit_status := EX_OSERR;
            final_pumps := rewind (out_pumps r);
            trace := EvSpawn :: out_trace r |}.
Proof.
  intros Ht Hp Hf Hr Hrc Hw He Hs. enter_pass Ht Hp Hf Hr Hrc.
  rewrite Hw, He, Hs. reflexivity.
Qed.

Lemma odd_status_ends_run_witness :
  WIFEXITED 127 = false /\ WIFSIGNALED 127 = false
  /\ main_loop Scenario.until_success (-1) pumps_zero 0
       [Runs.stopped; Scenario.silent_succeeds]
     = Some {| exit_status := EX_OSERR;
               final_pumps := rewind (out_pumps Scenario.hung_up);
               trace := [EvSpawn; EvPoll] |}.
Proof.
  split; [reflexivity|]. split; [reflexivity|].
  apply (odd_status_ends_run Scenario.until_success (-1) pumps_zero 0
           Runs.stopped [Scenario.silent_succeeds] Scenario.hung_up 127);
    [lia | reflexivity | reflexivity | reflexivity | reflexivity
     | reflexivity | reflexivity | reflexivity].
Defined.

(** *** The streams between the passes *)

Lemma prepare_stdout pumps p :
  pumps !! STDOUT_FD = Some p ->
  prepare pumps !! STDOUT_FD = Some (set_exit_on_close (close_write p)).
Proof.
  intros H. unfold prepare. rewrite !list_lookup_alter_eq, H. reflexivity.
Qed.

Lemma prepare_stdin pumps : prepare pumps !! STDIN_FD = pumps !! STDIN_FD.
Proof.
  unfold prepare. rewrite !list_lookup_alter_ne by discriminate. reflexivity.
Qed.

Lemma rewind_stdout pumps : rewind pumps !! STDOUT_FD = pumps !! STDOUT_FD.
Proof. unfold rewind. apply list_lookup_alter_ne. discriminate. Qed.

Lemma rewind_stdin pumps p :
  pumps !! STDIN_FD = Some p ->
  rewind pumps !! STDIN_FD = Some (set_offset 0 p).
Proof. intros H. unfold rewind. rewrite list_lookup_alter_eq, H. reflexivity. Qed.

Lemma length_prepare pumps : length (prepare pumps) = length pumps.
Proof. unfold prepare. rewrite !length_alter. reflexivity. Qed.

Lemma length_rewind pumps : length (rewind pumps) = length pumps.
Proof. apply length_alter. Qed.

Lemma captured_rewind_prepare pumps :
  captured (rewind (prepare pumps)) STDOUT_FD = captured pumps STDOUT_FD.
Proof.
  unfold captured. rewrite rewind_stdout.
  destruct (pumps !! STDOUT_FD) as [p|] eqn:E.
  - rewrite (prepare_stdout _ _ E). reflexivity.
  - unfold prepare. rewrite !list_lookup_alter_eq, E. reflexivity.
Qed.

(** *** Once the capture stream's source counts as closed *)

Lemma delivered_app a b : delivered (a ++ b) = delivered a ++ delivered b.
Proof. apply omap_app. Qed.

Lemma diverted_app a b : diverted (a ++ b) = diverted a ++ diverted b.
Proof. apply omap_app. Qed.

Lemma pumped_app a b : pumped (a ++ b) = pumped a || pumped b.
Proof. apply existsb_app. Qed.

Ltac split_pass H :=
  cbn [main_loop] in H;
  repeat match type of H with
         | (if ?b then _ else _) = _ => destruct b eqn:?
         | match ?x with _ => _ end = _ => destruct x eqn:?
         | after _ ?x = _ =>
             destruct x eqn:?; unfold after in H;
             cbn [fmap option_fmap option_map] in H
         | Some _ = Some _ => injection H as <-
         | None = Some _ => discriminate H
         end.

(** No later pass polls, reads or writes, and whatever is printed is
    what the buffer held already. *)
Lemma stale_capture script cfg times pumps status o p1 :
  pumps !! STDOUT_FD = Some p1 -> read_closed p1 = true ->
  main_loop cfg times pumps status script = Some o ->
  pumped (trace o) = false
  /\ captured (final_pumps o) STDOUT_FD = captured pumps STDOUT_FD
  /\ Forall (fun d => d = captured pumps STDOUT_FD)
       (delivered (trace o) ++ diverted (trace o)).
Proof.
  revert cfg times pumps status o p1.
  induction script as [|a script IH]; intros cfg times pumps status o p1 Hp Hc H.
  { split_pass H. cbn. auto. }
  assert (pump (prepare pumps) fds_fresh (a_rounds a)
          = at_once (prepare pumps)) as Hpump.
  { eapply (pump_leaving _ _ _ STDOUT_FD);
      [unfold PUMPS, STDOUT_FD; lia | apply prepare_stdout; exact Hp |].
    unfold leaving. cbn. rewrite Hc. reflexivity. }
  cbn [main_loop] in H. rewrite Hpump in H. unfold at_once in H.
  cbn [rc out_pumps out_trace] in H.
  change (negb (0 =? 0)) with false in H. cbn iota in H.
  pose proof (captured_rewind_prepare pumps) as Hcap.
  split_pass H; cbn [trace final_pumps exit_status];
    try (cbn; rewrite ?Hcap; repeat split; auto; fail).
  match goal with
  | Hrec : main_loop _ _ _ _ _ = Some _ |- _ =>
      eapply IH in Hrec as (Hq & Hf & Hd);
        [| rewrite rewind_stdout; apply prepare_stdout; exact Hp
         | cbn; exact Hc]
  end.
  rewrite Hcap in *.
  apply Forall_app in Hd as [Hd1 Hd2].
  destruct (delay cfg =? 0); cbn;
    (split; [exact Hq | split; [exact Hf |]]);
    (apply Forall_app; split;
     [exact Hd1 | apply Forall_cons; split; [reflexivity | exact Hd2]]).
Qed.

(** *** What one pass's call of [pump] can do *)

Lemma pass_pump_quiet pumps rounds r :
  length pumps = PUMPS ->
  pump (prepare pumps) fds_fresh rounds = Some r ->
  wrote STDOUT_FD (out_trace r) = false
  /\ delivered (out_trace r) = []
  /\ diverted (out_trace r) = []
  /\ length (rewind (out_pumps r)) = PUMPS.
Proof.
  intros Hl H.
  destruct (pumps !! STDOUT_FD) as [p|] eqn:Ep.
  2:{ apply lookup_ge_None in Ep. rewrite Hl in Ep.
      unfold PUMPS, STDOUT_FD in Ep. lia. }
  destruct (pump_prints_nothing _ _ _ _ H) as [H1 H2].
  repeat split; try assumption.
  - eapply (pump_silent _ _ _ _ STDOUT_FD);
      [unfold PUMPS, STDOUT_FD; lia | apply prepare_stdout; exact Ep
       | reflexivity | exact H].
  - rewrite length_rewind, (pump_length _ _ _ _ H), length_prepare. exact Hl.
Qed.

(** The state every later pass starts from. *)
Lemma pass_closes_capture pumps rounds r p0 :
  length pumps = PUMPS -> pumps !! STDIN_FD = Some p0 ->
  exit_on_close p0 = false ->
  pump (prepare pumps) fds_fresh rounds = Some r -> rc r = 0 ->
  exists p1, rewind (out_pumps r) !! STDOUT_FD = Some p1
             /\ read_closed p1 = true.
Proof.
  intros Hl Hp0 He H Hrc. rewrite rewind_stdout.
  eapply pump_closes_second; [| |exact He|exact H|exact Hrc].
  - rewrite length_prepare. exact Hl.
  - rewrite <- Hp0. apply prepare_stdin.
Qed.

(** *** The real standard output *)

Lemma wrote_cons k e tr : wrote k (e :: tr) = writes_to k e || wrote k tr.
Proof. reflexivity. Qed.

Lemma delivered_cons e tr :
  delivered (e :: tr)
  = match e with EvStdout d => [d] | _ => [] end ++ delivered tr.
Proof. destruct e; reflexivity. Qed.

Ltac norm_trace :=
  repeat first [ rewrite wrote_cons | rewrite wrote_app
               | rewrite delivered_cons | rewrite delivered_app ].

(** The real standard output is written at most once, by the [fwrite]
    that ends a run whose last exit status meets the criteria, and never
    by [pump]. *)
Lemma stdout_once script cfg times pumps status o :
  length pumps = PUMPS ->
  main_loop cfg times pumps status script = Some o ->
  wrote STDOUT_FD (trace o) = false
  /\ (delivered (trace o) = []
      \/ exists tr,
           trace o = tr ++ [EvStdout (captured (final_pumps o) STDOUT_FD)]
           /\ delivered tr = []
           /\ should_stop cfg (exit_status o) = Some true).
Proof.
  revert cfg times pumps status o.
  induction script as [|a script IH]; intros cfg times pumps status o Hl H.
  { split_pass H. cbn. auto. }
  split_pass H; cbn [trace final_pumps exit_status];
    try (cbn; auto; fail);
    match goal with
    | Hp : pump (prepare pumps) fds_fresh _ = Some ?r |- _ =>
        destruct (pass_pump_quiet _ _ _ Hl Hp) as (Hw & Hd & He & Hl')
    end;
    try (split; [|left]; norm_trace; rewrite ?Hw, ?Hd; reflexivity).
  - split; [norm_trace; rewrite Hw; reflexivity|].
    right. exists (EvSpawn :: out_trace r).
    split; [reflexivity|]. norm_trace. rewrite Hd. auto.
  - match goal with
    | Hrec : main_loop _ _ _ _ _ = Some _ |- _ =>
        apply IH in Hrec as (Iw & Id); [|exact Hl']
    end.
    split.
    { norm_trace. rewrite Hw, Iw. destruct (delay cfg =? 0); reflexivity. }
    destruct Id as [Id|(tr & Ht & Id & Is)].
    + left. norm_trace. rewrite Hd, Id. destruct (delay cfg =? 0); reflexivity.
    + right. rewrite Ht.
      match goal with
      | |- exists _, EvSpawn :: ?pre ++ tr ++ _ = _ /\ _ =>
          exists (EvSpawn :: pre ++ tr)
      end.
      split; [rewrite (app_assoc _ tr); reflexivity|].
      norm_trace. rewrite Hd, Id. split; [|exact Is].
      destruct (delay cfg =? 0); reflexivity.
Qed.

Lemma main_stdout_once cfg script o :
  main cfg script = Some o ->
  wrote STDOUT_FD (trace o) = false
  /\ (delivered (trace o) = []
      \/ exists tr,
           trace o = tr ++ [EvStdout (captured (final_pumps o) STDOUT_FD)]
           /\ delivered tr = []
           /\ should_stop cfg (exit_status o) = Some true).
Proof. apply stdout_once. reflexivity. Qed.

(** *** From one pass to the next *)

(** A pass whose command exits with a status that does not end the run
    prints the captured bytes to standard error and hands the streams
    on, the relay stream rewound. *)
Lemma pass_retried cfg times pumps status a script r st :
  times <> 0 -> a_pipe a = true -> a_fork a = true ->
  pump (prepare pumps) fds_fresh (a_rounds a) = Some r -> rc r = 0 ->
  reap (a_wait a) = Some (Some st) -> WIFEXITED st = true ->
  should_stop cfg (WEXITSTATUS st) = Some false ->
  main_loop cfg times pumps status (a :: script)
  = after (EvSpawn :: out_trace r
             ++ [EvStderr (captured (rewind (out_pumps r)) STDOUT_FD);
                 EvNotice (WEXITSTATUS st) (delay cfg)]
             ++ (if delay cfg =? 0 then []
                 else [EvSleep (to_uint (delay cfg))]))
      (main_loop cfg (if 0 <? times then times - 1 else times)
         (rewind (out_pumps r)) (WEXITSTATUS st) script).
Proof.
  intros Ht Hp Hf Hr Hrc Hw He Hs. enter_pass Ht Hp Hf Hr Hrc.
  rewrite Hw, He, Hs. reflexivity.
Qed.

(** Rewinding sets the relay stream's [offset] to 0 and keeps its bytes
    and its length. *)
Lemma rewind_keeps_bytes pumps q :
  rewind pumps !! STDIN_FD = Some q ->
  exists p, pumps !! STDIN_FD = Some p
            /\ offset q = 0 /\ base q = base p /\ len q = len p.
Proof.
  unfold rewind. rewrite list_lookup_alter_eq.
  destruct (pumps !! STDIN_FD) as [p|]; [|discriminate].
  intros [= <-]. exists p. repeat split; reflexivity.
Qed.

(** All polling, reading and writing of a run happens in its first
    pass. *)
Lemma main_pumps_once cfg a script o :
  main cfg (a :: script) = Some o ->
  pumped (trace o) = false
  \/ exists r tail,
       pump (prepare pumps_zero) fds_fresh (a_rounds a) = Some r
       /\ trace o = EvSpawn :: out_trace r ++ tail
       /\ pumped tail = false.
Proof.
  unfold main. intros H.
  split_pass H; cbn [trace]; try (left; reflexivity);
    right;
    match goal with
    | Hp : pump _ _ _ = Some ?r |- _ => exists r
    end;
    match goal with
    | |- exists _, _ /\ EvSpawn :: (out_trace _ ++ ?t) ++ ?u = _ /\ _ =>
        exists (t ++ u)
    | |- exists _, _ /\ EvSpawn :: out_trace _ ++ ?t = _ /\ _ => exists t
    | |- exists _, _ /\ EvSpawn :: out_trace _ = _ /\ _ => exists []
    end;
    (split; [reflexivity|]);
    try (split; [try rewrite app_nil_r; reflexivity | reflexivity]).
  match goal with
  | Hp : pump _ _ _ = Some ?r, Hrc : negb (rc ?r =? 0) = false,
    Hrec : main_loop _ _ _ _ _ = Some _ |- _ =>
      apply negb_false_iff, Z.eqb_eq in Hrc;
      destruct (pass_closes_capture pumps_zero _ r pump_zero
                  eq_refl eq_refl eq_refl Hp Hrc) as (p1 & Hp1 & Hc1);
      destruct (stale_capture _ _ _ _ _ _ _ Hp1 Hc1 Hrec) as (Hq & _)
  end.
  split; [rewrite <- app_assoc; reflexivity|].
  rewrite !pumped_app, Hq. destruct (delay cfg =? 0); reflexivity.
Qed.

(** *** Two runs that go as described *)

(** [false] with three tries: three children, nothing on standard
    output, exit code 1. *)
Example three_tries_of_false :
  main Scenario.three_tries
    [Scenario.fails_silently; Scenario.fails_silently;
     Scenario.fails_silently]
  = Some {| exit_status := 1;
            final_pumps := [pump_zero; Scenario.capture_empty];
            trace := [EvSpawn; EvPoll; EvStderr []; EvNotice 1 0;
                      EvSpawn; EvStderr []; EvNotice 1 0;
                      EvSpawn; EvStderr []; EvNotice 1 0] |}.
Proof. reflexivity. Qed.

(** A command that succeeds at once: one child, its output on standard
    output, exit code 0. *)
Example success_at_once :
  main Scenario.until_success [Scenario.prints_A_succeeds]
  = Some {| exit_status := 0;
            final_pumps := [pump_zero; Scenario.capture_A];
            trace := [EvSpawn; EvPoll; EvRead 1 Scenario.A; EvPoll;
                      EvStdout Scenario.A] |}.
Proof. reflexivity. Qed.

(** *** Where the retry loop departs from its description *)

(** C1: the capture stream is not reset between passes.  The first
    command prints "A" and fails; the second prints "B" and succeeds.
    The second pass starts with [read_closed] still set, so its call of
    [pump] returns at once: after the second [EvSpawn] there is no poll
    and no read, "B" stays in the pipe and the run ends by printing
    "A". *)
Theorem retry_reuses_closed_capture :
  main Scenario.until_success
    [Scenario.prints_A_fails; Scenario.prints_B_succeeds]
  = Some {| exit_status := 0;
            final_pumps := [pump_zero; Scenario.capture_A];
            trace := [EvSpawn; EvPoll; EvRead 1 Scenario.A; EvPoll;
                      EvStderr Scenario.A; EvNotice 1 0;
                      EvSpawn; EvStdout Scenario.A] |}.
Proof. reflexivity. Qed.

(** C5: the real standard output does not get the output of the attempt
    that met the criteria.  The first command prints "A" and fails, the
    second prints nothing and succeeds: standard output gets "A", which
    standard error got already. *)
Theorem stdout_gets_first_attempt :
  (fun o => (exit_status o, delivered (trace o), diverted (trace o)))
    <$> main Scenario.until_success
          [Scenario.prints_A_fails; Scenario.silent_succeeds]
  = Some (0, [Scenario.A], [Scenario.A]).
Proof. reflexivity. Qed.

(** C6: the captured input is rewound but not replayed.  "x" arrives on
    standard input in the first pass and goes to the first command,
    which fails.  The relay stream then holds "x" with [offset] 0, but
    the second pass's call of [pump] returns at once: nothing is written
    to the second command, although it is ready to read. *)
Theorem retry_replays_nothing :
  main Scenario.until_success
    [Scenario.relays_x_fails; Scenario.takes_input_succeeds]
  = Some {| exit_status := 0;
            final_pumps := [Scenario.relay_x; Scenario.capture_empty];
            trace := [EvSpawn; EvPoll; EvRead 0 Scenario.x; EvPoll;
                      EvWrite 0 Scenario.x; EvPoll;
                      EvStderr []; EvNotice 1 0;
                      EvSpawn; EvStdout []] |}.
Proof. reflexivity. Qed.

End RetryFacts.

(* ===================================================================== *)
(** ** The bytes that pass through [pump] *)
(* ===================================================================== *)

Module PumpLedger.
Import Pump Tally PumpFacts.

Lemma read_from_app k a b : read_from k (a ++ b) = read_from k a ++ read_from k b.
Proof. apply flat_map_app. Qed.

Lemma written_to_app k a b :
  written_to k (a ++ b) = written_to k a ++ written_to k b.
Proof. apply flat_map_app. Qed.

Lemma accounts_refl k p : wf p -> accounts k p [] p.
Proof.
  intros H. unfold accounts. cbn. rewrite !app_nil_r. auto.
Qed.

Lemma accounts_quiet k p tr :
  wf p -> read_from k tr = [] -> written_to k tr = [] -> accounts k p tr p.
Proof.
  intros H Hr Hw. unfold accounts. rewrite Hr, Hw, !app_nil_r. auto.
Qed.

Lemma accounts_trans k p a q b s :
  accounts k p a q -> accounts k q b s -> accounts k p (a ++ b) s.
Proof.
  intros (_ & Hb & Hs) (Hw & Hb' & Hs'). unfold accounts.
  rewrite read_from_app, written_to_app, Hb', Hs', Hb, Hs, !app_assoc. auto.
Qed.

Lemma take_length_take (l : list byte) n : take (length (take n l)) l = take n l.
Proof.
  revert n. induction l as [|b l IH]; intros [|n]; cbn; try reflexivity.
  f_equal. apply IH.
Qed.

Lemma do_read_accounts r i p :
  wf p -> accounts i p (trace_of (do_read r i p)) (state_of (do_read r i p)).
Proof.
  intros Hw. unfold do_read.
  destruct (r_read r i) as [| |data]; cbn [trace_of state_of];
    try (apply accounts_quiet; [exact Hw | reflexivity | reflexivity]).
  destruct (Z.of_nat (length (take (Z.to_nat BUFFER_SIZE) data)) =? 0) eqn:E;
    cbn [trace_of state_of].
  - apply Z.eqb_eq in E.
    destruct (take (Z.to_nat BUFFER_SIZE) data); [|discriminate].
    unfold accounts, read_from, written_to. cbn. rewrite Nat.eqb_refl.
    rewrite !app_nil_r. split; [exact Hw | split; reflexivity].
  - destruct Hw as [Ho Hl]. unfold accounts, wf, sent, read_from, written_to.
    cbn. rewrite Nat.eqb_refl, !app_nil_r, length_app.
    repeat split; try lia.
    apply take_app_le. lia.
Qed.

Lemma do_write_accounts r i p :
  wf p -> accounts i p (trace_of (do_write r i p)) (state_of (do_write r i p)).
Proof.
  intros [Ho Hl]. unfold do_write.
  destruct (r_write r i) as [|room]; cbn [trace_of state_of];
    [apply accounts_quiet; [split; assumption | reflexivity | reflexivity]|].
  set (out := take room (take (Z.to_nat (len p - offset p))
                           (drop (Z.to_nat (offset p)) (base p)))).
  assert (out = take (length out) (drop (Z.to_nat (offset p)) (base p))) as Hout.
  { unfold out. rewrite take_take, take_length_take. reflexivity. }
  assert (Z.of_nat (length out) <= len p - offset p) as Hlen.
  { unfold out. rewrite !length_take. lia. }
  assert (accounts i p [EvWrite i out]
            (set_offset (offset p + Z.of_nat (length out)) p)) as H.
  { unfold accounts, wf, sent, read_from, written_to. cbn.
    rewrite Nat.eqb_refl, !app_nil_r. repeat split; try lia.
    rewrite Z2Nat.inj_add, Nat2Z.id by lia.
    rewrite <- take_take_drop. f_equal. symmetry. exact Hout. }
  destruct (_ && _); exact H.
Qed.

Lemma and_then_accounts k p s f :
  accounts k p (trace_of s) (state_of s) ->
  (forall q, wf q -> accounts k q (trace_of (f q)) (state_of (f q))) ->
  accounts k p (trace_of (and_then s f)) (state_of (and_then s f)).
Proof.
  intros Hs Hf. destruct s as [tr q|tr q]; cbn [and_then]; [|exact Hs].
  cbn [trace_of state_of] in Hs.
  specialize (Hf q (proj1 Hs)).
  destruct (f q) as [tr' q'|tr' q']; cbn [trace_of state_of] in *;
    eapply accounts_trans; eassumption.
Qed.

(** Serving a stream accounts for every byte. *)
Lemma serve_one_accounts r fds i p :
  wf p ->
  accounts i p (trace_of (serve_one r fds i p))
    (state_of (serve_one r fds i p)).
Proof.
  intros Hw. unfold serve_one.
  apply and_then_accounts.
  { destruct (has _ POLLIN);
      [apply do_read_accounts | apply accounts_refl]; exact Hw. }
  intros q1 Hw1. apply and_then_accounts.
  { cbn [trace_of state_of].
    destruct (_ || _); exact (accounts_refl i q1 Hw1). }
  intros q2 Hw2. apply and_then_accounts.
  { destruct (has _ POLLOUT);
      [apply do_write_accounts | apply accounts_refl]; exact Hw2. }
  intros q3 Hw3. cbn [trace_of state_of].
  destruct (_ || _); exact (accounts_refl i q3 Hw3).
Qed.

(** Serving a stream reads and writes nothing of another stream. *)
Lemma serve_one_other r fds j p k :
  j <> k ->
  read_from k (trace_of (serve_one r fds j p)) = []
  /\ written_to k (trace_of (serve_one r fds j p)) = [].
Proof.
  intros H. apply Nat.eqb_neq in H.
  unfold serve_one, and_then, do_read, do_write, read_from, written_to.
  repeat case_step; try congruence; rewrite ?H; split; reflexivity.
Qed.

Lemma serve_before_trace n j r fds pumps i :
  (i < j)%nat ->
  read_from i (serve n j r fds pumps).1 = []
  /\ written_to i (serve n j r fds pumps).1 = [].
Proof.
  revert j pumps. induction n as [|n IH]; intros j pumps Hi; cbn [serve];
    [split; reflexivity|].
  destruct (pumps !! j) as [q|]; [|split; reflexivity].
  destruct (serve_one_other r fds j q i) as [H1 H2]; [lia|].
  destruct (serve_one r fds j q) as [tr q'|tr q']; cbn [trace_of] in H1, H2.
  - specialize (IH (S j) (<[j:=q']> pumps)).
    destruct (serve n (S j) r fds (<[j:=q']> pumps)) as [tr' res].
    cbn [fst] in *. destruct IH as [I1 I2]; [lia|].
    rewrite read_from_app, written_to_app, H1, H2, I1, I2. split; reflexivity.
  - split; assumption.
Qed.

Lemma serve_accounts n j r fds pumps i p :
  pumps !! i = Some p -> wf p ->
  exists q, streams (serve n j r fds pumps).2 !! i = Some q
            /\ accounts i p (serve n j r fds pumps).1 q.
Proof.
  revert j pumps. induction n as [|n IH]; intros j pumps Hp Hw; cbn [serve].
  { exists p. split; [exact Hp | apply accounts_refl; exact Hw]. }
  destruct (pumps !! j) as [pj|] eqn:Ej.
  2:{ exists p. split; [exact Hp | apply accounts_refl; exact Hw]. }
  pose proof (lookup_lt_Some _ _ _ Ej) as Hj.
  destruct (decide (i = j)) as [->|Hne].
  - assert (pj = p) as -> by congruence.
    pose proof (serve_one_accounts r fds j p Hw) as Ha.
    destruct (serve_one r fds j p) as [tr q'|tr q']; cbn [trace_of state_of] in Ha.
    + pose proof (serve_before n (S j) r fds (<[j:=q']> pumps) j) as Hb.
      pose proof (serve_before_trace n (S j) r fds (<[j:=q']> pumps) j) as Ht.
      destruct (serve n (S j) r fds (<[j:=q']> pumps)) as [tr' res].
      cbn [fst snd] in *. exists q'. split.
      * rewrite Hb by lia. apply list_lookup_insert_eq. exact Hj.
      * destruct Ht as [T1 T2]; [lia|]. destruct Ha as (A1 & A2 & A3).
        unfold accounts. rewrite read_from_app, written_to_app, T1, T2.
        rewrite !app_nil_r. auto.
    + cbn. exists q'. split; [apply list_lookup_insert_eq; exact Hj | exact Ha].
  - destruct (serve_one_other r fds j pj i) as [H1 H2]; [congruence|].
    destruct (serve_one r fds j pj) as [tr q'|tr q']; cbn [trace_of] in H1, H2.
    + specialize (IH (S j) (<[j:=q']> pumps)).
      destruct (serve n (S j) r fds (<[j:=q']> pumps)) as [tr' res].
      cbn [fst snd] in *.
      destruct IH as (q & Hq & A1 & A2 & A3);
        [rewrite list_lookup_insert_ne by congruence; exact Hp | exact Hw |].
      exists q. split; [exact Hq|]. unfold accounts.
      rewrite read_from_app, written_to_app, H1, H2. auto.
    + cbn. exists p. split.
      * rewrite list_lookup_insert_ne by congruence. exact Hp.
      * destruct (accounts_refl i p Hw) as (A1 & A2 & A3). unfold accounts.
        rewrite H1, H2. cbn in A2, A3. auto.
Qed.

Lemma accounts_prefix i p tr q :
  accounts i p tr q ->
  written_to i tr `prefix_of` drop (Z.to_nat (offset p)) (base p) ++ read_from i tr.
Proof.
  intros (_ & Hb & Hs).
  apply (prefix_app_inv (sent p)). rewrite <- Hs, app_assoc.
  unfold sent at 2. rewrite take_drop, <- Hb. apply prefix_take.
Qed.

Lemma pump_accounts script pumps fds res i p :
  pump pumps fds script = Some res -> pumps !! i = Some p -> wf p ->
  exists q, out_pumps res !! i = Some q /\ accounts i p (out_trace res) q.
Proof.
  revert pumps fds res p. induction script as [|r0 script IH];
    intros pumps fds res p H Hp Hw;
    apply pump_cases in H
      as [[-> _]|(fds1 & r & script' & Hs & Ha &
                  [[_ ->]|(fds2 & Ho &
                    [(tr & pumps' & Hv & ->)
                    |(tr & pumps' & res' & Hv & Hr & ->)])])];
    try discriminate; cbn [out_pumps out_trace];
    try (exists p; split; [exact Hp | apply accounts_refl; exact Hw]);
    try injection Hs as <- <-.
  - exists p. split; [exact Hp|].
    exact (accounts_trans i p [EvPoll] p [EvDiag CouldNotPoll] p
             (accounts_refl i p Hw) (accounts_refl i p Hw)).
  - destruct (serve_accounts PUMPS 0 r0 fds2 pumps i p Hp Hw) as (q & Hq & A).
    rewrite Hv in Hq, A. exists q. split; [exact Hq|].
    exact (accounts_trans i p [EvPoll] p tr q (accounts_refl i p Hw) A).
  - destruct (serve_accounts PUMPS 0 r0 fds2 pumps i p Hp Hw) as (q & Hq & A).
    rewrite Hv in Hq, A. cbn in Hq, A.
    destruct (IH _ _ _ q Hr Hq (proj1 A)) as (q' & Hq' & A').
    exists q'. split; [exact Hq'|].
    change ((EvPoll :: tr) ++ out_trace res')
      with ([EvPoll] ++ tr ++ out_trace res').
    eapply accounts_trans; [exact (accounts_refl i p Hw)|].
    eapply accounts_trans; eassumption.
Qed.

End PumpLedger.

(* ===================================================================== *)
(** ** When [pump] closes a sink *)

Module WriteClosed.
Import Pump Tally PumpFacts PumpLedger.

(** The [for] loop does not reach the streams behind its last index. *)
Lemma serve_beyond n j r fds pumps i :
  (j + n <= i)%nat -> streams (serve n j r fds pumps).2 !! i = pumps !! i.
Proof.
  revert j pumps. induction n as [|n IH]; intros j pumps Hi; cbn [serve];
    [reflexivity|].
  destruct (pumps !! j) as [q|]; [|reflexivity].
  destruct (serve_one r fds j q) as [tr q'|tr q'].
  - specialize (IH (S j) (<[j:=q']> pumps)).
    destruct (serve n (S j) r fds (<[j:=q']> pumps)) as [tr' res].
    cbn [snd] in *. rewrite IH by lia.
    apply list_lookup_insert_ne. lia.
  - cbn. apply list_lookup_insert_ne. lia.
Qed.

Lemma silent_written k tr : wrote k tr = false -> written_to k tr = [].
Proof.
  unfold wrote, written_to.
  induction tr as [|e tr IH]; [reflexivity|].
  cbn [existsb flat_map]. intros H. apply orb_false_iff in H as [He Ht].
  rewrite (IH Ht), app_nil_r.
  destruct e; try reflexivity. cbn in He. rewrite He. reflexivity.
Qed.

Lemma offset_of_sent p q more :
  wf p -> wf q -> sent q = sent p ++ more ->
  offset q = offset p + Z.of_nat (length more).
Proof.
  intros [Ho Hl] [Ho' Hl'] Hs. apply (f_equal length) in Hs.
  unfold sent in Hs. rewrite length_app, !length_take in Hs. lia.
Qed.

(** Once the sink of a stream is closed, no call of [pump] writes to it
    and the cursor stays where it is. *)
Lemma closed_sink_keeps_offset script pumps fds res i q :
  (i < PUMPS)%nat -> wf q -> write_closed q = true ->
  pumps !! i = Some q -> pump pumps fds script = Some res ->
  wrote i (out_trace res) = false
  /\ exists q', out_pumps res !! i = Some q'
                /\ write_closed q' = true /\ offset q' = offset q.
Proof.
  intros Hi Hw Hc Hq H.
  pose proof (pump_silent _ _ _ _ _ _ Hi Hq Hc H) as Hs.
  split; [exact Hs|].
  destruct (pump_accounts _ _ _ _ _ _ H Hq Hw) as (q' & Hq' & Hw' & _ & Ha).
  destruct (pump_grows _ _ _ _ _ _ H Hq) as (q2 & Hq2 & _ & _ & Hg).
  rewrite Hq' in Hq2. injection Hq2 as <-.
  exists q'. split; [exact Hq'|]. split; [exact (Hg Hc)|].
  rewrite (offset_of_sent q q' _ Hw Hw' Ha), (silent_written _ _ Hs).
  cbn. lia.
Qed.

(** C4, as the code has it: in a round of [pump], [write_closed] goes
    from clear to set on a stream only when the stream is drained
    ([read_closed] set and [offset] equal to [len]) once the round is
    over, or when [poll] reported POLLERR or POLLNVAL on its sink.
    Closing the sink delivers nothing: in that round the cursor moves by
    the bytes [write] took and no further, and from then on no call of
    [pump] writes to the sink or moves the cursor, so the bytes behind
    the cursor, and all that are read later, stay undelivered. *)
Theorem write_closed_cause r fds pumps i p q :
  pumps !! i = Some p ->
  streams (serve PUMPS 0 r fds pumps).2 !! i = Some q ->
  write_closed p = false -> write_closed q = true ->
  (drained q \/ sink_error fds i = true)
  /\ (wf p ->
      offset q
      = offset p
        + Z.of_nat (length (written_to i (serve PUMPS 0 r fds pumps).1))
      /\ forall script pumps' fds' res,
           pumps' !! i = Some q -> pump pumps' fds' script = Some res ->
           wrote i (out_trace res) = false
           /\ exists q', out_pumps res !! i = Some q'
                         /\ write_closed q' = true
                         /\ offset q' = offset q).
Proof.
  intros Hp Hq Hw Hw'. split.
  { destruct (serve_at PUMPS 0 r fds pumps i p Hp) as [H|H];
      rewrite H in Hq; injection Hq as <-.
    - congruence.
    - apply serve_one_write_closed; assumption. }
  intros Hwf.
  assert (i < PUMPS)%nat as Hi.
  { destruct (Nat.lt_ge_cases i PUMPS) as [Hlt|Hge]; [exact Hlt|].
    rewrite (serve_beyond PUMPS 0 r fds pumps i) in Hq by exact Hge.
    congruence. }
  destruct (serve_accounts PUMPS 0 r fds pumps i p Hp Hwf)
    as (q0 & Hq0 & Hwq & _ & Ha).
  rewrite Hq in Hq0. injection Hq0 as <-.
  split; [exact (offset_of_sent p q _ Hwf Hwq Ha)|].
  intros script pumps' fds' res Hq' H.
  exact (closed_sink_keeps_offset script pumps' fds' res i q Hi Hwq Hw' Hq' H).
Qed.

Lemma write_closed_cause_witness :
  [Scenario.last_byte; Scenario.shut] !! 0%nat = Some Scenario.last_byte
  /\ streams (serve PUMPS 0 (Scenario.writable 0 1)
                Scenario.fds_sink0_writable
                [Scenario.last_byte; Scenario.shut]).2 !! 0%nat
     = Some Scenario.last_byte_sent
  /\ (drained Scenario.last_byte_sent
      \/ sink_error Scenario.fds_sink0_writable 0 = true)
  /\ (wf Scenario.last_byte ->
      offset Scenario.last_byte_sent
      = offset Scenario.last_byte
        + Z.of_nat (length (written_to 0
                              (serve PUMPS 0 (Scenario.writable 0 1)
                                 Scenario.fds_sink0_writable
                                 [Scenario.last_byte; Scenario.shut]).1))
      /\ forall script pumps' fds' res,
           pumps' !! 0%nat = Some Scenario.last_byte_sent ->
           pump pumps' fds' script = Some res ->
           wrote 0 (out_trace res) = false
           /\ exists q', out_pumps res !! 0%nat = Some q'
                         /\ write_closed q' = true
                         /\ offset q' = offset Scenario.last_byte_sent).
Proof.
  split; [reflexivity|]. split; [reflexivity|].
  apply (write_closed_cause (Scenario.writable 0 1)
           Scenario.fds_sink0_writable
           [Scenario.last_byte; Scenario.shut] 0 Scenario.last_byte);
    reflexivity.
Defined.

End WriteClosed.

(* ===================================================================== *)
(** ** More on [status_match] *)
(* ===================================================================== *)

Module CriteriaMore.
Import CStr Criteria CriteriaFacts.

Lemma b2z_not_invalid b : Z.b2z b <> -1.
Proof. destruct b; discriminate. Qed.

Lemma body_invalid_any_status s s' c :
  status_match_body s c = Return (-1) -> status_match_body s' c = Return (-1).
Proof.
  unfold status_match_body.
  repeat match goal with
         | |- context [if ?b then _ else _] => destruct b eqn:?
         | |- context [let '(_, _) := ?p in _] => destruct p eqn:?
         end;
    try reflexivity; try discriminate;
    intros [= H]; exfalso; exact (b2z_not_invalid _ H).
Qed.

Lemma status_match_as_body s c :
  status_match s (Some c)
  = match status_match_body s c with
    | Return r => Some r
    | Next _ => None
    end.
Proof. unfold status_match. rewrite status_match_loop_fuel. reflexivity. Qed.

Lemma body_result s c r :
  status_match_body s c = Return r -> r = -1 \/ r = 0 \/ r = 1.
Proof.
  unfold status_match_body.
  repeat match goal with
         | |- context [if ?b then _ else _] => destruct b eqn:?
         | |- context [let '(_, _) := ?p in _] => destruct p eqn:?
         end;
    intros [= <-]; auto;
    match goal with |- context [Z.b2z ?b] => destruct b end; auto.
Qed.

Lemma status_match_result s c r :
  status_match s c = Some r -> r = -1 \/ r = 0 \/ r = 1.
Proof.
  destruct c as [c|]; [|intros [= <-]; auto].
  rewrite status_match_as_body.
  destruct (status_match_body s c) eqn:E; [|discriminate].
  intros [= <-]. eapply body_result. exact E.
Qed.

(** X1: whether a criteria string is invalid does not depend on the exit
    status it is matched against: if [status_match] returns -1 for one
    status it returns -1 for every status.  So the check that [main]
    makes with status 0 when it reads the option holds for the statuses
    met later. *)
Theorem invalid_for_every_status s s' c :
  status_match s (Some c) = Some (-1) ->
  status_match s' (Some c) = Some (-1).
Proof.
  rewrite !status_match_as_body.
  destruct (status_match_body s c) as [r|] eqn:E; [|discriminate].
  intros [= ->]. rewrite (body_invalid_any_status s s' c E). reflexivity.
Qed.

Lemma invalid_for_every_status_witness :
  status_match 0 (Some "3-x") = Some (-1)
  /\ status_match 200 (Some "3-x") = Some (-1).
Proof.
  split; [reflexivity|].
  apply (invalid_for_every_status 0 200 "3-x"). reflexivity.
Defined.

Lemma valid_for_every_status s s' c :
  status_match s (Some c) <> Some (-1) ->
  status_match s' (Some c) <> Some (-1).
Proof.
  rewrite !status_match_as_body. intros H H'. apply H.
  destruct (status_match_body s' c) as [r|] eqn:E; [|discriminate].
  injection H' as ->. rewrite (body_invalid_any_status s' s c E). reflexivity.
Qed.

(** *** Tokens that are the beginning of a word *)

Ltac walk_prefix H tok :=
  repeat (destruct tok as [|?a tok];
          [ try reflexivity; try discriminate
          | cbn [String.prefix] in H;
            match type of H with
            | (if ?d then _ else _) = true =>
                destruct d; [subst | discriminate H]
            | false = true => discriminate H
            end ]).

(** X2: every token that is the beginning of [success] or of [true], the
    empty token among them, is read as that word: the result is 1 when
    the status is 0 and 0 otherwise, never -1. *)
Theorem prefix_of_success_or_true tok status :
  String.prefix tok "success" = true \/ String.prefix tok "true" = true ->
  status_match status (Some tok) = Some (Z.b2z (status =? 0)).
Proof.
  intros [H|H]; walk_prefix H tok.
Qed.

Lemma prefix_of_success_or_true_witness :
  (String.prefix "succ" "success" = true \/ String.prefix "succ" "true" = true)
  /\ status_match 7 (Some "succ") = Some (Z.b2z (7 =? 0)).
Proof.
  split; [left; reflexivity|].
  apply (prefix_of_success_or_true "succ" 7). left. reflexivity.
Defined.

(** X3: every non-empty token that is the beginning of [fail] or of
    [false] is read as that word: the result is 1 when the status is not
    0 and 0 when it is. *)
Theorem prefix_of_fail_or_false tok status :
  tok <> "" ->
  String.prefix tok "fail" = true \/ String.prefix tok "false" = true ->
  status_match status (Some tok) = Some (Z.b2z (negb (status =? 0))).
Proof.
  intros Hne [H|H]; walk_prefix H tok; congruence.
Qed.

Lemma prefix_of_fail_or_false_witness :
  "fa" <> ""
  /\ (String.prefix "fa" "fail" = true \/ String.prefix "fa" "false" = true)
  /\ status_match 7 (Some "fa") = Some (Z.b2z (negb (7 =? 0))).
Proof.
  split; [discriminate|]. split; [left; reflexivity|].
  apply (prefix_of_fail_or_false "fa" 7); [discriminate | left; reflexivity].
Defined.

End CriteriaMore.

(* ===================================================================== *)
(** ** More on [pump] *)
(* ===================================================================== *)

Module PumpMore.
Import Pump Tally PumpFacts PumpLedger.

(** X7: [pump] stores every byte it reads: when it returns, the buffer
    of a stream is the buffer it had before followed by the bytes read
    from its source during the call, in the order they were read, and
    [len] has grown by their number. *)
Theorem pump_stores_what_it_reads script pumps fds res i p :
  pump pumps fds script = Some res -> pumps !! i = Some p -> wf p ->
  exists q, out_pumps res !! i = Some q
            /\ base q = base p ++ read_from i (out_trace res)
            /\ len q = len p + Z.of_nat (length (read_from i (out_trace res))).
Proof.
  intros H Hp Hw.
  destruct (pump_accounts _ _ _ _ _ _ H Hp Hw) as (q & Hq & [_ Hl'] & Hb & _).
  exists q. split; [exact Hq|]. split; [exact Hb|].
  destruct Hw as [_ Hl]. rewrite Hl', Hb, length_app, Hl. lia.
Qed.

Lemma pump_stores_what_it_reads_witness :
  pump (Retry.prepare Retry.pumps_zero) Retry.fds_fresh
    (Retry.a_rounds Scenario.relays_x_fails)
  = Some Runs.relayed
  /\ wf Retry.pump_zero
  /\ exists q, out_pumps Runs.relayed !! 0%nat = Some q
               /\ base q = base Retry.pump_zero
                           ++ read_from 0 (out_trace Runs.relayed)
               /\ len q = len Retry.pump_zero
                          + Z.of_nat (length (read_from 0
                                                (out_trace Runs.relayed))).
Proof.
  assert (wf Retry.pump_zero) as Hw by (split; [cbn; lia | reflexivity]).
  split; [reflexivity|]. split; [exact Hw|].
  apply (pump_stores_what_it_reads (Retry.a_rounds Scenario.relays_x_fails)
           (Retry.prepare Retry.pumps_zero) Retry.fds_fresh Runs.relayed
           0%nat Retry.pump_zero); [reflexivity | reflexivity | exact Hw].
Defined.

(** X8: [pump] writes the buffer in order and once: when it returns, the
    first [offset] bytes of a stream's buffer are the bytes that had gone
    to the sink before the call followed by the bytes written during the
    call, and [offset] has grown by their number. *)
Theorem pump_sends_in_order script pumps fds res i p :
  pump pumps fds script = Some res -> pumps !! i = Some p -> wf p ->
  exists q, out_pumps res !! i = Some q
            /\ sent q = sent p ++ written_to i (out_trace res)
            /\ offset q
               = offset p + Z.of_nat (length (written_to i (out_trace res))).
Proof.
  intros H Hp Hw.
  destruct (pump_accounts _ _ _ _ _ _ H Hp Hw) as (q & Hq & Hw' & _ & Hs).
  exists q. split; [exact Hq|]. split; [exact Hs|].
  apply (f_equal length) in Hs. unfold sent in Hs.
  rewrite length_app, !length_take in Hs.
  destruct Hw as [Ho Hl], Hw' as [Ho' Hl']. lia.
Qed.

Lemma pump_sends_in_order_witness :
  pump (Retry.prepare Retry.pumps_zero) Retry.fds_fresh
    (Retry.a_rounds Scenario.relays_x_fails)
  = Some Runs.relayed
  /\ wf Retry.pump_zero
  /\ exists q, out_pumps Runs.relayed !! 0%nat = Some q
               /\ sent q = sent Retry.pump_zero
                           ++ written_to 0 (out_trace Runs.relayed)
               /\ offset q
                  = offset Retry.pump_zero
                    + Z.of_nat (length (written_to 0
                                          (out_trace Runs.relayed))).
Proof.
  assert (wf Retry.pump_zero) as Hw by (split; [cbn; lia | reflexivity]).
  split; [reflexivity|]. split; [exact Hw|].
  apply (pump_sends_in_order (Retry.a_rounds Scenario.relays_x_fails)
           (Retry.prepare Retry.pumps_zero) Retry.fds_fresh Runs.relayed
           0%nat Retry.pump_zero); [reflexivity | reflexivity | exact Hw].
Defined.

(** X9: what [pump] writes to a sink is a beginning of the bytes that
    were waiting in the buffer followed by the bytes read during the
    call: nothing is written that was not stored, nothing is written out
    of order and nothing twice. *)
Theorem pump_writes_a_prefix script pumps fds res i p :
  pump pumps fds script = Some res -> pumps !! i = Some p -> wf p ->
  written_to i (out_trace res)
  `prefix_of` drop (Z.to_nat (offset p)) (base p) ++ read_from i (out_trace res).
Proof.
  intros H Hp Hw.
  destruct (pump_accounts _ _ _ _ _ _ H Hp Hw) as (q & Hq & Ha).
  eapply accounts_prefix. exact Ha.
Qed.

Lemma pump_writes_a_prefix_witness :
  pump (Retry.prepare Retry.pumps_zero) Retry.fds_fresh
    (Retry.a_rounds Scenario.relays_x_fails)
  = Some Runs.relayed
  /\ wf Retry.pump_zero
  /\ written_to 0 (out_trace Runs.relayed)
     `prefix_of` drop (Z.to_nat (offset Retry.pump_zero))
                   (base Retry.pump_zero)
                 ++ read_from 0 (out_trace Runs.relayed).
Proof.
  assert (wf Retry.pump_zero) as Hw by (split; [cbn; lia | reflexivity]).
  split; [reflexivity|]. split; [exact Hw|].
  apply (pump_writes_a_prefix (Retry.a_rounds Scenario.relays_x_fails)
           (Retry.prepare Retry.pumps_zero) Retry.fds_fresh Runs.relayed
           0%nat Retry.pump_zero); [reflexivity | reflexivity | exact Hw].
Defined.

(** X11: [pump] never reopens an end and never changes [exit_on_close]:
    a stream that had [read_closed] or [write_closed] set when [pump] was
    called has it set when [pump] returns. *)
Theorem pump_never_reopens script pumps fds res i p :
  pump pumps fds script = Some res -> pumps !! i = Some p ->
  exists q, out_pumps res !! i = Some q
            /\ exit_on_close q = exit_on_close p
            /\ (read_closed p = true -> read_closed q = true)
            /\ (write_closed p = true -> write_closed q = true).
Proof.
  intros H Hp. destruct (pump_grows _ _ _ _ _ _ H Hp) as (q & Hq & Hg).
  exists q. split; [exact Hq | exact Hg].
Qed.

Lemma pump_never_reopens_witness :
  pump (Retry.prepare Retry.pumps_zero) Retry.fds_fresh
    (Retry.a_rounds Scenario.relays_x_fails)
  = Some Runs.relayed
  /\ exists q, out_pumps Runs.relayed !! 1%nat = Some q
               /\ exit_on_close q = exit_on_close Runs.capture_ready
               /\ (read_closed Runs.capture_ready = true
                   -> read_closed q = true)
               /\ (write_closed Runs.capture_ready = true
                   -> write_closed q = true).
Proof.
  split; [reflexivity|].
  apply (pump_never_reopens (Retry.a_rounds Scenario.relays_x_fails)
           (Retry.prepare Retry.pumps_zero) Retry.fds_fresh Runs.relayed
           1%nat Runs.capture_ready); reflexivity.
Defined.

(** *** Closed sources *)

Lemma read_at_app k a b : read_at k (a ++ b) = read_at k a || read_at k b.
Proof. apply existsb_app. Qed.

Lemma serve_one_deaf r fds i p k :
  i <> k \/ has (revents_at fds (OFFSET i READ_FD)) POLLIN = false ->
  read_at k (trace_of (serve_one r fds i p)) = false.
Proof.
  unfold serve_one, and_then, do_read, do_write.
  intros [H|H].
  - apply Nat.eqb_neq in H. repeat case_step; rewrite ?H; reflexivity.
  - rewrite H. repeat case_step; reflexivity.
Qed.

Lemma serve_deaf n j r fds pumps k :
  has (revents_at fds (OFFSET k READ_FD)) POLLIN = false ->
  read_at k (serve n j r fds pumps).1 = false.
Proof.
  intros Hk. revert j pumps.
  induction n as [|n IH]; intros j pumps; cbn [serve]; [reflexivity|].
  destruct (pumps !! j) as [q|]; [|reflexivity].
  assert (read_at k (trace_of (serve_one r fds j q)) = false) as Hq.
  { apply serve_one_deaf. destruct (decide (j = k)) as [->|]; auto. }
  destruct (serve_one r fds j q) as [tr q'|tr q']; cbn [trace_of] in Hq.
  - specialize (IH (S j) (<[j:=q']> pumps)).
    destruct (serve n (S j) r fds (<[j:=q']> pumps)) as [tr' res].
    cbn [fst] in *. rewrite read_at_app, Hq, IH. reflexivity.
  - exact Hq.
Qed.

Lemma pump_deaf script pumps fds res k p :
  (k < PUMPS)%nat -> pumps !! k = Some p -> read_closed p = true ->
  pump pumps fds script = Some res ->
  read_at k (out_trace res) = false.
Proof.
  intros Hk. revert pumps fds res p.
  induction script as [|r0 script IH]; intros pumps fds res p Hp Hc H;
    apply pump_cases in H
      as [[-> _]|(fds1 & r & script' & Hs & Ha &
                  [[_ ->]|(fds2 & Ho &
                    [(tr & pumps' & Hv & ->)
                    |(tr & pumps' & res' & Hv & Hr & ->)])])];
    try discriminate; try reflexivity; injection Hs as <- <-;
    destruct (closed_ends_quiet _ _ _ _ _ k p Ha Ho Hk Hp) as [Hq _];
    specialize (Hq Hc);
    pose proof (serve_deaf PUMPS 0 r0 fds2 pumps k Hq) as Hsil;
    rewrite Hv in Hsil; cbn [fst] in Hsil; cbn [out_trace].
  - exact Hsil.
  - destruct (serve_grows PUMPS 0 r0 fds2 pumps k p Hp)
      as (q & Hq' & _ & Hw & _).
    rewrite Hv in Hq'. cbn in Hq'.
    change ((EvPoll :: tr) ++ out_trace res')
      with ([EvPoll] ++ tr ++ out_trace res').
    rewrite !read_at_app, Hsil.
    rewrite (IH _ _ _ q Hq' (Hw Hc) Hr). reflexivity.
Qed.

(** X12: [pump] leaves a closed end alone: it never reads from the
    source of a stream that had [read_closed] set when it was called and
    never writes to the sink of a stream that had [write_closed] set. *)
Theorem closed_ends_stay_unused script pumps fds res k p :
  (k < PUMPS)%nat -> pumps !! k = Some p ->
  pump pumps fds script = Some res ->
  (read_closed p = true -> read_at k (out_trace res) = false)
  /\ (write_closed p = true -> wrote k (out_trace res) = false).
Proof.
  intros Hk Hp H. split; intros Hc.
  - eapply pump_deaf; eassumption.
  - eapply pump_silent; eassumption.
Qed.

Lemma closed_ends_stay_unused_witness :
  pump (Retry.prepare Retry.pumps_zero) Retry.fds_fresh
    (Retry.a_rounds Scenario.relays_x_fails)
  = Some Runs.relayed
  /\ write_closed Runs.capture_ready = true
  /\ (read_closed Runs.capture_ready = true
      -> read_at 1 (out_trace Runs.relayed) = false)
  /\ (write_closed Runs.capture_ready = true
      -> wrote 1 (out_trace Runs.relayed) = false).
Proof.
  split; [reflexivity|]. split; [reflexivity|].
  apply (closed_ends_stay_unused (Retry.a_rounds Scenario.relays_x_fails)
           (Retry.prepare Retry.pumps_zero) Retry.fds_fresh Runs.relayed
           1%nat Runs.capture_ready);
    [unfold PUMPS; lia | reflexivity | reflexivity].
Defined.

(** *** The return value *)

Lemma diagnosed_app a b : diagnosed (a ++ b) = diagnosed a || diagnosed b.
Proof. apply existsb_app. Qed.

Lemma serve_one_diagnosed r fds i p :
  match serve_one r fds i p with
  | Served tr _ => diagnosed tr = false
  | GaveUp tr _ => diagnosed tr = true
  end.
Proof.
  unfold serve_one, and_then, do_read, do_write.
  repeat case_step; reflexivity.
Qed.

Lemma serve_diagnosed n j r fds pumps :
  match (serve n j r fds pumps).2 with
  | inl _ => diagnosed (serve n j r fds pumps).1 = false
  | inr _ => diagnosed (serve n j r fds pumps).1 = true
  end.
Proof.
  revert j pumps. induction n as [|n IH]; intros j pumps; cbn [serve];
    [reflexivity|].
  destruct (pumps !! j) as [q|]; [|reflexivity].
  pose proof (serve_one_diagnosed r fds j q) as H.
  destruct (serve_one r fds j q) as [tr q'|tr q']; [|exact H].
  specialize (IH (S j) (<[j:=q']> pumps)).
  destruct (serve n (S j) r fds (<[j:=q']> pumps)) as [tr' [l|l]];
    cbn [fst snd] in *; rewrite diagnosed_app, H, IH; reflexivity.
Qed.

Lemma pump_fails_diag script pumps fds res :
  pump pumps fds script = Some res ->
  (rc res = 0 /\ diagnosed (out_trace res) = false)
  \/ (rc res = -1 /\ diagnosed (out_trace res) = true).
Proof.
  revert pumps fds res.
  induction script as [|r0 script IH]; intros pumps fds res H;
    apply pump_cases in H
      as [[-> _]|(fds1 & r & script' & Hs & Ha &
                  [[_ ->]|(fds2 & Ho &
                    [(tr & pumps' & Hv & ->)
                    |(tr & pumps' & res' & Hv & Hr & ->)])])];
    try discriminate; cbn [rc out_trace];
    try (left; split; reflexivity); try (right; split; reflexivity);
    injection Hs as <- <-;
    pose proof (serve_diagnosed PUMPS 0 r0 fds2 pumps) as Hd;
    rewrite Hv in Hd; cbn [fst snd] in Hd.
  - right. split; [reflexivity|]. exact Hd.
  - change ((EvPoll :: tr) ++ out_trace res')
      with ([EvPoll] ++ tr ++ out_trace res').
    rewrite !diagnosed_app, Hd.
    destruct (IH _ _ _ Hr) as [[-> ->]|[-> ->]]; [left|right];
      split; reflexivity.
Qed.

(** X14: [pump] returns 0 or -1, and it returns -1 exactly when it has
    printed a diagnostic (poll, memory, read or write failure). *)
Theorem pump_fails_with_diagnostic script pumps fds res :
  pump pumps fds script = Some res ->
  (rc res = 0 <-> diagnosed (out_trace res) = false)
  /\ (rc res = -1 <-> diagnosed (out_trace res) = true)
  /\ (rc res = 0 \/ rc res = -1).
Proof.
  intros H. destruct (pump_fails_diag _ _ _ _ H) as [[-> ->]|[-> ->]];
    repeat split; auto; discriminate.
Qed.

Lemma pump_fails_with_diagnostic_witness :
  pump (Retry.prepare Retry.pumps_zero) Retry.fds_fresh
    (Retry.a_rounds Scenario.relays_x_fails)
  = Some Runs.relayed
  /\ (rc Runs.relayed = 0 <-> diagnosed (out_trace Runs.relayed) = false)
  /\ (rc Runs.relayed = -1 <-> diagnosed (out_trace Runs.relayed) = true)
  /\ (rc Runs.relayed = 0 \/ rc Runs.relayed = -1).
Proof.
  split; [reflexivity|].
  apply (pump_fails_with_diagnostic (Retry.a_rounds Scenario.relays_x_fails)
           (Retry.prepare Retry.pumps_zero) Retry.fds_fresh Runs.relayed).
  reflexivity.
Defined.

(** *** The kinds of events *)

Lemma serve_one_events r fds i p :
  Forall pump_event (trace_of (serve_one r fds i p)).
Proof.
  unfold serve_one, and_then, do_read, do_write.
  repeat case_step; repeat constructor.
Qed.

Lemma serve_events n j r fds pumps :
  Forall pump_event (serve n j r fds pumps).1.
Proof.
  revert j pumps. induction n as [|n IH]; intros j pumps; cbn [serve];
    [constructor|].
  destruct (pumps !! j) as [q|]; [|constructor].
  pose proof (serve_one_events r fds j q) as H.
  destruct (serve_one r fds j q) as [tr q'|tr q']; [|exact H].
  specialize (IH (S j) (<[j:=q']> pumps)).
  destruct (serve n (S j) r fds (<[j:=q']> pumps)) as [tr' res].
  cbn [fst] in *. apply Forall_app. split; assumption.
Qed.

Lemma pump_events script pumps fds res :
  pump pumps fds script = Some res -> Forall pump_event (out_trace res).
Proof.
  revert pumps fds res.
  induction script as [|r0 script IH]; intros pumps fds res H;
    apply pump_cases in H
      as [[-> _]|(fds1 & r & script' & Hs & Ha &
                  [[_ ->]|(fds2 & Ho &
                    [(tr & pumps' & Hv & ->)
                    |(tr & pumps' & res' & Hv & Hr & ->)])])];
    try discriminate; cbn [out_trace]; repeat constructor;
    injection Hs as <- <-;
    pose proof (serve_events PUMPS 0 r0 fds2 pumps) as He;
    rewrite Hv in He; cbn [fst] in He.
  - exact He.
  - apply Forall_app. split; [exact He | eapply IH; exact Hr].
Qed.

End PumpMore.

(* ===================================================================== *)
(** ** More on the retry loop *)
(* ===================================================================== *)

Module RetryMore.
Import Criteria Pump Retry Tally PumpFacts PumpLedger PumpMore RetryFacts.

(** *** Counting in a trace *)

Lemma spawns_app a b : spawns (a ++ b) = (spawns a + spawns b)%nat.
Proof. unfold spawns. rewrite List.filter_app, length_app. reflexivity. Qed.

Lemma pump_events_tally tr :
  Forall pump_event tr ->
  spawns tr = 0%nat /\ delivered tr = [] /\ diverted tr = [].
Proof.
  induction 1 as [|e tr He _ (I1 & I2 & I3)]; [repeat split|].
  destruct e; try contradiction; cbn in *; auto.
Qed.

Lemma quiet_trace tr k :
  pumped tr = false -> read_from k tr = [] /\ written_to k tr = [].
Proof.
  induction tr as [|e tr IH]; [split; reflexivity|].
  cbn. intros H. apply orb_false_iff in H as [He Ht].
  destruct (IH Ht) as [I1 I2].
  destruct e; try discriminate He; cbn; auto.
Qed.

Lemma main_loop_zero cfg pumps status script :
  main_loop cfg 0 pumps status script
  = Some {| exit_status := status; final_pumps := pumps; trace := [] |}.
Proof. destruct script; reflexivity. Qed.

(** *** The number of tries *)

Lemma main_loop_budget script cfg times pumps status o :
  0 <= times ->
  main_loop cfg times pumps status script = Some o ->
  Z.of_nat (spawns (trace o)) <= times.
Proof.
  revert cfg times pumps status o.
  induction script as [|a script IH]; intros cfg times pumps status o Ht H.
  { split_pass H. cbn. lia. }
  split_pass H; cbn [trace];
    repeat match goal with
           | Hz : (_ =? 0) = false |- _ => apply Z.eqb_neq in Hz
           | Hp : pump _ _ _ = Some _ |- _ =>
               apply pump_events, pump_events_tally in Hp as (Hs & _ & _)
           end;
    change (EvSpawn :: ?t) with ([EvSpawn] ++ t);
    rewrite ?spawns_app, ?Hs; cbn; try lia.
  match goal with
  | Hrec : main_loop _ _ _ _ _ = Some _ |- _ => apply IH in Hrec
  end.
  - destruct (0 <? times) eqn:E; [apply Z.ltb_lt in E | apply Z.ltb_ge in E];
      destruct (delay cfg =? 0); cbn; lia.
  - destruct (0 <? times) eqn:E; [apply Z.ltb_lt in E | apply Z.ltb_ge in E];
      lia.
Qed.

(** X15: with a number of tries that is not negative, a run starts at
    most that many children; with 0 tries it starts none. *)
Theorem tries_bound_children cfg script o :
  0 <= times cfg -> main cfg script = Some o ->
  Z.of_nat (spawns (trace o)) <= times cfg.
Proof. intros Ht H. eapply main_loop_budget; eassumption. Qed.

Lemma tries_bound_children_witness :
  main Scenario.three_tries
    [Scenario.fails_silently; Scenario.fails_silently;
     Scenario.fails_silently]
  = Some Runs.three_failures
  /\ Z.of_nat (spawns (trace Runs.three_failures))
     <= times Scenario.three_tries.
Proof.
  split; [reflexivity|].
  apply (tries_bound_children Scenario.three_tries
           [Scenario.fails_silently; Scenario.fails_silently;
            Scenario.fails_silently]
           Runs.three_failures); [cbn; lia | reflexivity].
Defined.

(** *** The last try *)

(** X22: when the last try exits with a status that does not end the
    run, the run ends with that status and nothing on standard output;
    the captured bytes go to standard error, the notice is printed with
    the delay, and unless the delay is 0 [sleep] is called as after any
    other try, with the delay as an [unsigned int]: the delay modulo
    2^32. *)
Theorem last_try_fails cfg pumps status a script r st :
  a_pipe a = true -> a_fork a = true ->
  pump (prepare pumps) fds_fresh (a_rounds a) = Some r -> rc r = 0 ->
  reap (a_wait a) = Some (Some st) -> WIFEXITED st = true ->
  should_stop cfg (WEXITSTATUS st) = Some false ->
  main_loop cfg 1 pumps status (a :: script)
  = Some {| exit_status := WEXITSTATUS st;
            final_pumps := rewind (out_pumps r);
            trace := EvSpawn :: out_trace r
                       ++ [EvStderr (captured (rewind (out_pumps r)) STDOUT_FD);
                           EvNotice (WEXITSTATUS st) (delay cfg)]
                       ++ (if delay cfg =? 0 then []
                           else [EvSleep (to_uint (delay cfg))]) |}.
Proof.
  intros Hp Hf Hr Hrc Hw He Hs.
  rewrite (pass_retried cfg 1 pumps status a script r st)
    by (assumption || discriminate).
  change (if 0 <? 1 then 1 - 1 else 1) with 0.
  rewrite main_loop_zero. unfold after. cbn [fmap option_fmap option_map].
  cbn [exit_status final_pumps trace]. rewrite !app_nil_r. reflexivity.
Qed.

Lemma last_try_fails_witness :
  should_stop Runs.long_delay (WEXITSTATUS 256) = Some false
  /\ main_loop Runs.long_delay 1 pumps_zero 0 [Scenario.fails_silently]
     = Some {| exit_status := 1;
               final_pumps := rewind (out_pumps Scenario.hung_up);
               trace := [EvSpawn; EvPoll; EvStderr [];
                         EvNotice 1 4294967297; EvSleep 1] |}.
Proof.
  split; [reflexivity|].
  apply (last_try_fails Runs.long_delay pumps_zero 0
           Scenario.fails_silently [] Scenario.hung_up 256); reflexivity.
Defined.


(** *** Failures *)

Lemma diagnosed_cons e tr :
  diagnosed (e :: tr)
  = match e with EvDiag _ => true | _ => false end || diagnosed tr.
Proof. reflexivity. Qed.

Ltac norm_diag :=
  repeat first [ rewrite diagnosed_cons | rewrite diagnosed_app
               | rewrite delivered_cons | rewrite delivered_app ].

Lemma main_loop_diagnosed script cfg times pumps status o :
  main_loop cfg times pumps status script = Some o ->
  diagnosed (trace o) = true ->
  exit_status o = EXIT_FAILURE /\ delivered (trace o) = [].
Proof.
  revert cfg times pumps status o.
  induction script as [|a script IH]; intros cfg times pumps status o H.
  { split_pass H. cbn. discriminate. }
  split_pass H; cbn [trace exit_status];
    try (cbn; intros; (discriminate || (split; reflexivity)); fail);
    match goal with
    | Hp : pump _ _ _ = Some ?r |- _ =>
        pose proof (pump_fails_diag _ _ _ _ Hp) as Hd;
        apply pump_events, pump_events_tally in Hp as (_ & Hdel & _)
    end;
    repeat match goal with
           | Hz : negb (_ =? 0) = _ |- _ =>
               first [ apply negb_false_iff in Hz | apply negb_true_iff in Hz ];
               first [ apply Z.eqb_eq in Hz | apply Z.eqb_neq in Hz ]
           end;
    norm_diag; rewrite ?Hdel;
    try (destruct Hd as [[? Hd]|[? Hd]]; [|congruence]; rewrite Hd;
         cbn; intros; (discriminate || (split; reflexivity))).
  - intros _. split; reflexivity.
  - destruct Hd as [[? Hd]|[? Hd]]; [|congruence]. rewrite Hd.
    match goal with
    | Hrec : main_loop _ _ _ _ _ = Some _ |- _ =>
        specialize (IH _ _ _ _ _ Hrec)
    end.
    destruct (delay cfg =? 0); cbn; intros Ho; apply IH in Ho as [-> ->];
      split; reflexivity.
Qed.

(** X23: a run in which a diagnostic was printed (a pipe, fork, poll,
    memory, read, write or waitpid failure) ends with exit code 1 and
    with nothing written to standard output. *)
Theorem failure_exits_1 cfg script o :
  main cfg script = Some o -> diagnosed (trace o) = true ->
  exit_status o = EXIT_FAILURE /\ delivered (trace o) = [].
Proof. apply main_loop_diagnosed. Qed.

Lemma failure_exits_1_witness :
  main Scenario.until_success [Scenario.unwaitable] = Some Runs.wait_failed
  /\ diagnosed (trace Runs.wait_failed) = true
  /\ exit_status Runs.wait_failed = EXIT_FAILURE
  /\ delivered (trace Runs.wait_failed) = [].
Proof.
  split; [reflexivity|]. split; [reflexivity|].
  apply (failure_exits_1 Scenario.until_success [Scenario.unwaitable]
           Runs.wait_failed); reflexivity.
Defined.

(** *** What standard output gets *)

Lemma read_from_cons k e tr :
  read_from k (e :: tr)
  = match e with
    | EvRead i d => if Nat.eqb i k then d else []
    | _ => []
    end ++ read_from k tr.
Proof. reflexivity. Qed.

Lemma wf_prepare pumps : Forall wf pumps -> Forall wf (prepare pumps).
Proof.
  intros H. unfold prepare.
  apply Forall_alter; [apply Forall_alter; [exact H|] |];
    intros q _ Hq; exact Hq.
Qed.


Lemma wf_rewind pumps : Forall wf pumps -> Forall wf (rewind pumps).
Proof.
  intros H. unfold rewind. apply Forall_alter; [exact H|].
  intros q _ [Ho Hl]. split; [cbn; lia | exact Hl].
Qed.

Lemma pump_all_wf script pumps fds res :
  Forall wf pumps -> pump pumps fds script = Some res ->
  Forall wf (out_pumps res).
Proof.
  intros Hw H. apply Forall_lookup. intros i q Hq.
  pose proof (pump_length _ _ _ _ H) as Hl.
  destruct (pumps !! i) as [p|] eqn:Ep.
  - destruct (pump_accounts _ _ _ _ _ _ H Ep (Forall_lookup_1 _ _ _ _ Hw Ep))
      as (q' & Hq' & Hwq & _).
    congruence.
  - apply lookup_ge_None in Ep. apply lookup_lt_Some in Hq. lia.
Qed.

Lemma captured_wf pumps i p :
  pumps !! i = Some p -> wf p -> captured pumps i = base p.
Proof.
  intros Hp [_ Hl]. unfold captured. rewrite Hp. apply take_ge. lia.
Qed.

Lemma wf_pump_zero : wf pump_zero.
Proof. split; [cbn; lia | reflexivity]. Qed.

Lemma wf_pumps_zero : Forall wf pumps_zero.
Proof.
  unfold pumps_zero, PUMPS. cbn [replicate].
  constructor; [exact wf_pump_zero|].
  constructor; [exact wf_pump_zero | constructor].
Qed.

(** What a pass adds to the capture buffer. *)
Lemma pass_capture pumps rounds r :
  Forall wf pumps -> length pumps = PUMPS ->
  pump (prepare pumps) fds_fresh rounds = Some r ->
  captured (rewind (out_pumps r)) STDOUT_FD
  = captured pumps STDOUT_FD ++ read_from STDOUT_FD (out_trace r)
  /\ Forall wf (rewind (out_pumps r))
  /\ length (rewind (out_pumps r)) = PUMPS.
Proof.
  intros Hw Hl H.
  destruct (pumps !! STDOUT_FD) as [p|] eqn:Ep.
  2:{ apply lookup_ge_None in Ep. rewrite Hl in Ep.
      unfold PUMPS, STDOUT_FD in Ep. lia. }
  pose proof (Forall_lookup_1 _ _ _ _ Hw Ep) as Hwp.
  destruct (pump_accounts _ _ _ _ STDOUT_FD _ H (prepare_stdout _ _ Ep) Hwp)
    as (q & Hq & Hwq & Hb & _).
  repeat split.
  - rewrite (captured_wf pumps _ _ Ep Hwp).
    rewrite (captured_wf (rewind (out_pumps r)) STDOUT_FD q);
      [exact Hb | rewrite rewind_stdout; exact Hq | exact Hwq].
  - apply wf_rewind. eapply pump_all_wf; [|exact H]. apply wf_prepare, Hw.
  - rewrite length_rewind, (pump_length _ _ _ _ H), length_prepare. exact Hl.
Qed.

Ltac norm_read :=
  repeat first [ rewrite read_from_cons | rewrite read_from_app
               | rewrite delivered_cons | rewrite delivered_app ].

Lemma main_loop_delivers script cfg times pumps status o :
  Forall wf pumps -> length pumps = PUMPS ->
  main_loop cfg times pumps status script = Some o ->
  Forall (fun d => d = captured pumps STDOUT_FD
                       ++ read_from STDOUT_FD (trace o))
    (delivered (trace o)).
Proof.
  revert cfg times pumps status o.
  induction script as [|a script IH]; intros cfg times pumps status o Hw Hl H.
  { split_pass H. constructor. }
  split_pass H; cbn [trace];
    try (constructor; fail);
    match goal with
    | Hp : pump (prepare pumps) fds_fresh _ = Some ?r |- _ =>
        destruct (pass_capture _ _ _ Hw Hl Hp) as (Hc & Hw' & Hl');
        apply pump_events, pump_events_tally in Hp as (_ & Hdel & _)
    end;
    norm_read; rewrite ?Hdel; cbn [app];
    try (constructor; fail).
  - constructor; [|constructor]. rewrite Hc, !app_nil_r. reflexivity.
  - match goal with
    | Hrec : main_loop _ _ _ _ _ = Some _ |- _ =>
        pose proof (IH _ _ _ _ _ Hw' Hl' Hrec) as Hd
    end.
    rewrite Hc in Hd.
    assert (delivered (if delay cfg =? 0 then []
                       else [EvSleep (to_uint (delay cfg))])
            = []) as -> by (destruct (delay cfg =? 0); reflexivity).
    assert (read_from STDOUT_FD
              (if delay cfg =? 0 then []
               else [EvSleep (to_uint (delay cfg))])
            = []) as -> by (destruct (delay cfg =? 0); reflexivity).
    cbn [app]. rewrite app_nil_r.
    eapply Forall_impl; [exact Hd|]. cbn. intros d ->.
    rewrite <- app_assoc. reflexivity.
Qed.

(** X18: what a run writes to standard output is what it has read from
    the commands' standard output: all of it, in the order read, nothing
    else. *)
Theorem stdout_is_what_was_read cfg script o :
  main cfg script = Some o ->
  Forall (fun d => d = read_from STDOUT_FD (trace o)) (delivered (trace o)).
Proof.
  intros H.
  apply (main_loop_delivers script cfg (times cfg) pumps_zero 0 o) in H.
  - exact H.
  - apply wf_pumps_zero.
  - reflexivity.
Qed.

Lemma stdout_is_what_was_read_witness :
  main Scenario.until_success [Scenario.prints_A_succeeds]
  = Some Runs.printed_A
  /\ Forall (fun d => d = read_from STDOUT_FD (trace Runs.printed_A))
       (delivered (trace Runs.printed_A)).
Proof.
  split; [reflexivity|].
  apply (stdout_is_what_was_read Scenario.until_success
           [Scenario.prints_A_succeeds] Runs.printed_A).
  reflexivity.
Defined.

(** X13: when the call of [pump] in a pass returns 0, the source of the
    capture stream has closed, and the bytes the run would print are the
    bytes captured before the pass followed by all the bytes read from
    the command in this pass. *)
Theorem pass_reads_to_the_end pumps rounds r p0 :
  Forall wf pumps -> length pumps = PUMPS ->
  pumps !! STDIN_FD = Some p0 -> exit_on_close p0 = false ->
  pump (prepare pumps) fds_fresh rounds = Some r -> rc r = 0 ->
  (exists q, out_pumps r !! STDOUT_FD = Some q /\ read_closed q = true)
  /\ captured (rewind (out_pumps r)) STDOUT_FD
     = captured pumps STDOUT_FD ++ read_from STDOUT_FD (out_trace r).
Proof.
  intros Hw Hl Hp0 He H Hrc. split.
  - destruct (pass_closes_capture _ _ _ _ Hl Hp0 He H Hrc) as (q & Hq & Hc).
    rewrite rewind_stdout in Hq. eauto.
  - eapply pass_capture; eassumption.
Qed.

Lemma pass_reads_to_the_end_witness :
  pump (prepare pumps_zero) fds_fresh (a_rounds Scenario.prints_A_fails)
  = Some Runs.read_A
  /\ (exists q, out_pumps Runs.read_A !! STDOUT_FD = Some q
                /\ read_closed q = true)
  /\ captured (rewind (out_pumps Runs.read_A)) STDOUT_FD
     = captured pumps_zero STDOUT_FD
       ++ read_from STDOUT_FD (out_trace Runs.read_A).
Proof.
  split; [reflexivity|].
  apply (pass_reads_to_the_end pumps_zero
           (a_rounds Scenario.prints_A_fails) Runs.read_A pump_zero);
    [apply wf_pumps_zero | reflexivity | reflexivity | reflexivity
     | reflexivity | reflexivity].
Defined.

(** *** After the first pass *)

(** X19: once a pass's call of [pump] has returned 0, no later pass
    polls, reads or writes: whatever the rest of the run prints to
    standard output or standard error is the content the capture buffer
    had after that pass. *)
Theorem later_passes_idle cfg times status script pumps rounds r p0 o :
  length pumps = PUMPS ->
  pumps !! STDIN_FD = Some p0 -> exit_on_close p0 = false ->
  pump (prepare pumps) fds_fresh rounds = Some r -> rc r = 0 ->
  main_loop cfg times (rewind (out_pumps r)) status script = Some o ->
  pumped (trace o) = false
  /\ Forall (fun d => d = captured (rewind (out_pumps r)) STDOUT_FD)
       (delivered (trace o) ++ diverted (trace o)).
Proof.
  intros Hl Hp0 He H Hrc Hm.
  destruct (pass_closes_capture _ _ _ _ Hl Hp0 He H Hrc) as (q & Hq & Hc).
  destruct (stale_capture _ _ _ _ _ _ _ Hq Hc Hm) as (Hp & _ & Hd).
  split; assumption.
Qed.

Lemma later_passes_idle_witness :
  pump (prepare pumps_zero) fds_fresh (a_rounds Scenario.prints_A_fails)
  = Some Runs.read_A
  /\ main_loop Scenario.until_success (-1)
       (rewind (out_pumps Runs.read_A)) 1 [Scenario.silent_succeeds]
     = Some Runs.second_try_idle
  /\ pumped (trace Runs.second_try_idle) = false
  /\ Forall (fun d => d = captured (rewind (out_pumps Runs.read_A)) STDOUT_FD)
       (delivered (trace Runs.second_try_idle)
        ++ diverted (trace Runs.second_try_idle)).
Proof.
  split; [reflexivity|]. split; [reflexivity|].
  apply (later_passes_idle Scenario.until_success (-1) 1
           [Scenario.silent_succeeds] pumps_zero
           (a_rounds Scenario.prints_A_fails) Runs.read_A pump_zero
           Runs.second_try_idle); reflexivity.
Defined.

(** X20: the bytes a run writes to the commands' standard input are a
    beginning of the bytes it has read from its own standard input, in
    the same order. *)
Theorem children_get_a_prefix cfg a script o :
  main cfg (a :: script) = Some o ->
  written_to STDIN_FD (trace o) `prefix_of` read_from STDIN_FD (trace o).
Proof.
  intros H. destruct (main_pumps_once _ _ _ _ H) as [Hq|(r & tail & Hp & -> & Hq)].
  - destruct (quiet_trace _ STDIN_FD Hq) as [_ ->]. apply prefix_nil.
  - destruct (quiet_trace _ STDIN_FD Hq) as [Hr Hw].
    change (EvSpawn :: out_trace r ++ tail)
      with ([EvSpawn] ++ out_trace r ++ tail).
    rewrite !written_to_app, !read_from_app, Hr, Hw, !app_nil_r. cbn [app].
    destruct (pump_accounts _ _ _ _ STDIN_FD pump_zero Hp eq_refl wf_pump_zero)
      as (q & _ & Ha).
    apply accounts_prefix in Ha. exact Ha.
Qed.

Lemma children_get_a_prefix_witness :
  main Scenario.until_success
    [Scenario.relays_x_fails; Scenario.takes_input_succeeds]
  = Some Runs.relayed_once
  /\ written_to STDIN_FD (trace Runs.relayed_once)
     `prefix_of` read_from STDIN_FD (trace Runs.relayed_once).
Proof.
  split; [reflexivity|].
  apply (children_get_a_prefix Scenario.until_success
           Scenario.relays_x_fails [Scenario.takes_input_succeeds]
           Runs.relayed_once).
  reflexivity.
Defined.

(** X17: [pump] never writes to the real standard output, and a run
    writes to it at most once: by the [fwrite] that is the last thing a
    run does when the last exit status ends the run. *)
Theorem stdout_at_most_once cfg script o :
  main cfg script = Some o ->
  wrote STDOUT_FD (trace o) = false
  /\ (length (delivered (trace o)) <= 1)%nat
  /\ (delivered (trace o) <> [] ->
      (exists tr d, trace o = tr ++ [EvStdout d])
      /\ should_stop cfg (exit_status o) = Some true).
Proof.
  intros H.
  destruct (stdout_once script cfg (times cfg) pumps_zero 0 o eq_refl H)
    as [Hw [Hd|(tr & Ht & Hd & Hs)]]; (split; [exact Hw|]).
  - rewrite Hd. split; [cbn; lia | congruence].
  - rewrite Ht, delivered_app, Hd. split; [cbn; lia|].
    intros _. split; [eauto | exact Hs].
Qed.

Lemma stdout_at_most_once_witness :
  main Scenario.until_success [Scenario.prints_A_succeeds]
  = Some Runs.printed_A
  /\ wrote STDOUT_FD (trace Runs.printed_A) = false
  /\ (length (delivered (trace Runs.printed_A)) <= 1)%nat
  /\ (delivered (trace Runs.printed_A) <> [] ->
      (exists tr d, trace Runs.printed_A = tr ++ [EvStdout d])
      /\ should_stop Scenario.until_success (exit_status Runs.printed_A)
         = Some true).
Proof.
  split; [reflexivity|].
  apply (stdout_at_most_once Scenario.until_success
           [Scenario.prints_A_succeeds] Runs.printed_A).
  reflexivity.
Defined.

End RetryMore.

(* ===================================================================== *)
(** ** The options and the whole of [main] *)
(* ===================================================================== *)

Module OptionsFacts.
Import CStr Criteria Pump Retry Options Tally.
Import CriteriaFacts CriteriaMore RetryFacts.

(** *** [strtol] on an option's argument *)

Lemma strtol_range s : LONG_MIN <= fst (strtol s) <= LONG_MAX.
Proof.
  unfold strtol.
  repeat match goal with
         | |- context [if ?b then _ else _] => destruct b
         | |- context [let '(_, _) := ?p in _] => destruct p
         end; cbn [fst]; unfold LONG_MIN, LONG_MAX;
    change (2 ^ 63) with 9223372036854775808; lia.
Qed.

Lemma strtol_errno_at_digit s :
  isdigit (deref s) = true ->
  strtol_errno s
  = if (fst (digits s 0) <? LONG_MIN) || (LONG_MAX <? fst (digits s 0))
    then ERANGE else 0.
Proof.
  intros H. unfold strtol_errno.
  destruct s as [|c s]; [discriminate|].
  simpl in H. destruct (isdigit_plain c H) as (Hs & Hm & Hp).
  cbn [skip_space]. rewrite Hs. cbn [deref]. rewrite Hm, Hp.
  cbn [deref]. rewrite H. destruct (digits (String c s) 0). reflexivity.
Qed.

Lemma number_is_good d bound :
  d <> "" -> all_digits d = true -> fst (digits d 0) <= LONG_MAX ->
  bound <= 0 ->
  bad_number d bound = false /\ fst (strtol d) = fst (digits d 0).
Proof.
  intros Hne Hd Hv Hb.
  assert (isdigit (deref d) = true) as H0.
  { destruct d as [|c d]; [congruence|]. cbn in Hd.
    apply andb_true_iff in Hd as [Hc _]. exact Hc. }
  pose proof (digits_nonneg d 0 (Z.le_refl 0)) as Hn.
  unfold bad_number.
  rewrite strtol_errno_at_digit, strtol_at_digit by exact H0.
  cbn [fst snd]. rewrite (digits_all d 0 Hd), clamp_nonneg by exact Hn.
  rewrite Z.min_r by exact Hv.
  assert ((fst (digits d 0) <? LONG_MIN) = false) as ->.
  { apply Z.ltb_ge. unfold LONG_MIN. change (2 ^ 63) with 9223372036854775808.
    lia. }
  assert ((LONG_MAX <? fst (digits d 0)) = false) as -> by (apply Z.ltb_ge; lia).
  assert ((fst (digits d 0) <? bound) = false) as -> by (apply Z.ltb_ge; lia).
  split; reflexivity.
Qed.

(** X27: an option argument that is a string of decimal digits with a
    value that fits a [long] is taken by [-d] as the delay and by [-t] as
    the number of tries, with that value. *)
Theorem number_option_accepted name d s :
  d <> "" -> all_digits d = true -> fst (digits d 0) <= LONG_MAX ->
  option_case name "d" d s
  = Some (Go {| s_until := s_until s; s_while := s_while s;
                s_message := s_message s;
                s_delay := fst (digits d 0); s_times := s_times s |})
  /\ option_case name "t" d s
     = Some (Go {| s_until := s_until s; s_while := s_while s;
                   s_message := s_message s;
                   s_delay := s_delay s; s_times := fst (digits d 0) |}).
Proof.
  intros Hne Hd Hv.
  destruct (number_is_good d 0 Hne Hd Hv (Z.le_refl 0)) as [B0 V].
  destruct (number_is_good d (-1) Hne Hd Hv ltac:(lia)) as [B1 _].
  unfold option_case. cbn [Ascii.eqb Bool.eqb]. cbn iota.
  rewrite B0, B1, V. split; reflexivity.
Qed.

Lemma number_option_accepted_witness :
  all_digits "42" = true
  /\ option_case "retry" "d" "42" settings_default
     = Some (Go {| s_until := Some "success"; s_while := None;
                   s_message := None;
                   s_delay := 42; s_times := DEFAULT_TIMES |})
  /\ option_case "retry" "t" "42" settings_default
     = Some (Go {| s_until := Some "success"; s_while := None;
                   s_message := None;
                   s_delay := DEFAULT_DELAY; s_times := 42 |}).
Proof.
  split; [reflexivity|].
  apply (number_option_accepted "retry" "42" settings_default);
    [discriminate | reflexivity | vm_compute; discriminate].
Defined.

(** X28: a number followed by anything that is not a digit is turned
    down by [-d] and by [-t]: [main] prints the usage text with the
    complaint to standard error and returns 1. *)
Theorem trailing_text_rejected name d c rest s :
  d <> "" -> all_digits d = true -> isdigit c = false -> c <> NUL ->
  option_case name "d" (d +:+ String c rest) s
  = Some (Leave (1, Usage true (Some BadDelay) (program_name name)))
  /\ option_case name "t" (d +:+ String c rest) s
     = Some (Leave (1, Usage true (Some BadTimes) (program_name name))).
Proof.
  intros Hne Hd Hc Hn.
  assert (isdigit (deref (d +:+ String c rest)) = true) as H0.
  { destruct d as [|a d]; [congruence|]. cbn in Hd.
    apply andb_true_iff in Hd as [Ha _]. exact Ha. }
  assert (forall bound, bad_number (d +:+ String c rest) bound = true) as B.
  { intros bound. unfold bad_number.
    rewrite (strtol_at_digit _ H0), digits_app by exact Hc.
    cbn [fst snd]. rewrite (digits_all d 0 Hd).
    change (deref ("" +:+ String c rest)) with c.
    destruct (Ascii.eqb_spec c NUL); [contradiction|].
    cbn [negb]. rewrite orb_true_r. reflexivity. }
  unfold option_case. cbn [Ascii.eqb Bool.eqb]. cbn iota.
  rewrite !B. split; reflexivity.
Qed.

Lemma trailing_text_rejected_witness :
  all_digits "5" = true /\ isdigit "x" = false
  /\ option_case "retry" "d" "5x" settings_default
     = Some (Leave (1, Usage true (Some BadDelay) "retry"))
  /\ option_case "retry" "t" "5x" settings_default
     = Some (Leave (1, Usage true (Some BadTimes) "retry")).
Proof.
  split; [reflexivity|]. split; [reflexivity|].
  apply (trailing_text_rejected "retry" "5" "x" "" settings_default);
    [discriminate | reflexivity | reflexivity | discriminate].
Defined.

(** *** The name in the usage text *)

Lemma strrchr_slash s :
  match strrchr s "/" with
  | None => strchr s "/" = None
  | Some q =>
      exists pre, s = pre +:+ q /\ deref q = "/"%char
                  /\ strchr (advance q) "/" = None
  end.
Proof.
  induction s as [|a r IH]; [reflexivity|]. cbn [strrchr].
  destruct (strrchr r "/") as [q|].
  - destruct IH as (pre & -> & Hq & Hn). exists (String a pre).
    split; [reflexivity | split; assumption].
  - cbn [strchr]. destruct (Ascii.eqb_spec a "/") as [->|Hne].
    + exists "". split; [reflexivity | split; [reflexivity | exact IH]].
    + exact IH.
Qed.

(** X29: the name [help] prints is the part of [argv[0]] after its last
    slash, or all of it when it has none: it holds no slash, and
    [argv[0]] is that name behind nothing or behind a path that ends in a
    slash. *)
Theorem program_name_is_last_component name :
  strchr (program_name name) "/" = None
  /\ exists dir, name = dir +:+ program_name name
                 /\ (dir = "" \/ exists d, dir = d +:+ "/").
Proof.
  unfold program_name. pose proof (strrchr_slash name) as H.
  destruct (strrchr name "/") as [q|].
  - destruct H as (pre & -> & Hq & Hn). split; [exact Hn|].
    destruct q as [|c q]; [discriminate|]. cbn in Hq. subst c.
    exists (pre +:+ "/"). cbn [advance]. split; [|right; eauto].
    clear. induction pre as [|a pre IH]; [reflexivity|].
    unfold String.append; fold String.append. f_equal. exact IH.
  - split; [exact H|]. exists "". split; [reflexivity | left; reflexivity].
Qed.

(** *** What accepted options establish *)

Lemma sound_default : sound settings_default.
Proof.
  unfold sound, settings_default, one_criterion, criterion_of. cbn.
  unfold DEFAULT_DELAY, DEFAULT_TIMES, LONG_MAX.
  change (2 ^ 63) with 9223372036854775808.
  repeat split; try lia.
  - left. split; [eexists; reflexivity | reflexivity].
  - intros c [= <-]. discriminate.
Qed.

Lemma option_case_sound name c optarg s s' :
  sound s -> option_case name c optarg s = Some (Go s') -> sound s'.
Proof.
  intros (Hd & Ht & Ho & Hv). unfold option_case.
  pose proof (strtol_range optarg) as Hr.
  repeat match goal with
         | |- context [if Ascii.eqb ?a ?b then _ else _] =>
             destruct (Ascii.eqb a b)
         end;
    try discriminate.
  - destruct (bad_number optarg 0) eqn:B; [discriminate|].
    intros [= <-]. unfold bad_number in B.
    apply orb_false_iff in B as [_ B]. apply Z.ltb_ge in B.
    unfold sound. cbn. repeat split; try lia; assumption.
  - intros [= <-]. unfold sound. cbn. repeat split; try lia; assumption.
  - destruct (bad_number optarg (-1)) eqn:B; [discriminate|].
    intros [= <-]. unfold bad_number in B.
    apply orb_false_iff in B as [_ B]. apply Z.ltb_ge in B.
    unfold sound. cbn. repeat split; try lia; assumption.
  - destruct (status_match 0 (Some optarg)) as [r|] eqn:E; [|discriminate].
    cbn. destruct (Z.eqb_spec r (-1)); [discriminate|].
    intros [= <-]. unfold sound, one_criterion, criterion_of.
    cbn [s_delay s_times s_until s_while].
    repeat split; try lia.
    + left. split; [eexists; reflexivity | reflexivity].
    + intros c0 [= <-]. congruence.
  - destruct (status_match 0 (Some optarg)) as [r|] eqn:E; [|discriminate].
    cbn. destruct (Z.eqb_spec r (-1)); [discriminate|].
    intros [= <-]. unfold sound, one_criterion, criterion_of.
    cbn [s_delay s_times s_until s_while].
    repeat split; try lia.
    + right. split; [reflexivity | eexists; reflexivity].
    + intros c0 [= <-]. congruence.
Qed.

Lemma parse_options_sound name opts s s' :
  sound s -> parse_options name opts s = Some (Go s') -> sound s'.
Proof.
  revert s. induction opts as [|[c optarg] opts IH]; intros s Hs; cbn.
  - intros [= <-]. exact Hs.
  - destruct (option_case name c optarg s) as [[s1|r]|] eqn:E;
      try discriminate.
    apply IH. eapply option_case_sound; eassumption.
Qed.

Lemma front_sound name opts has_command s :
  front name opts has_command = Some (Go s) ->
  has_command = true /\ sound s.
Proof.
  unfold front.
  destruct (parse_options name opts settings_default) as [[s1|r]|] eqn:E;
    try discriminate.
  destruct has_command; [|discriminate].
  intros [= <-]. split; [reflexivity|].
  eapply parse_options_sound; [apply sound_default | exact E].
Qed.

(** X24: when [main] gets past its options there is a command, the delay
    is not negative, the number of tries is at least -1, exactly one of
    the until and while criteria is set, and that criterion is valid for
    every exit status. *)
Theorem accepted_settings name opts has_command s :
  front name opts has_command = Some (Go s) ->
  has_command = true
  /\ 0 <= s_delay s <= LONG_MAX
  /\ -1 <= s_times s <= LONG_MAX
  /\ one_criterion s
  /\ forall c status,
       criterion_of s = Some c -> status_match status (Some c) <> Some (-1).
Proof.
  intros H. destruct (front_sound _ _ _ _ H) as (Hc & Hd & Ht & Ho & Hv).
  repeat split; try assumption; try apply Hd; try apply Ht.
  intros c status Hs. apply (valid_for_every_status 0). apply Hv. exact Hs.
Qed.

Lemma accepted_settings_witness :
  front "/usr/bin/retry" [("w"%char, "1"); ("d"%char, "0")] true
  = Some (Go Runs.while_1)
  /\ true = true
  /\ 0 <= s_delay Runs.while_1 <= LONG_MAX
  /\ -1 <= s_times Runs.while_1 <= LONG_MAX
  /\ one_criterion Runs.while_1
  /\ forall c status,
       criterion_of Runs.while_1 = Some c ->
       status_match status (Some c) <> Some (-1).
Proof.
  split; [reflexivity|].
  apply (accepted_settings "/usr/bin/retry"
           [("w"%char, "1"); ("d"%char, "0")] true Runs.while_1).
  reflexivity.
Defined.

(** X30: for options that [main] accepts, the decision after a command
    has exited is a two-way one and never meets an invalid criterion:
    with an until criterion the run stops when the status matches, with
    a while criterion when it does not. *)
Theorem stop_decision name opts has_command s status :
  front name opts has_command = Some (Go s) ->
  exists c r,
    criterion_of s = Some c
    /\ status_match status (Some c) = Some r /\ (r = 0 \/ r = 1)
    /\ should_stop (to_config s) status
       = Some (match s_until s with
               | Some _ => r =? 1
               | None => r =? 0
               end).
Proof.
  intros H. destruct (front_sound _ _ _ _ H) as (_ & _ & _ & Ho & Hv).
  assert (forall c, criterion_of s = Some c ->
          exists r, status_match status (Some c) = Some r /\ (r = 0 \/ r = 1))
    as Hr.
  { intros c Hc. destruct (status_match_total status (Some c)) as [r Er].
    exists r. split; [exact Er|].
    destruct (status_match_result _ _ _ Er) as [->|Hr]; [|exact Hr].
    exfalso. apply (valid_for_every_status 0 status c (Hv c Hc)). exact Er. }
  unfold should_stop, to_config, criterion_of, one_criterion in *.
  cbn [repeat_until repeat_while].
  destruct Ho as [[[c Hu] Hw]|[Hu [c Hw]]]; rewrite Hu, Hw in *;
    destruct (Hr c eq_refl) as (r & Er & Hr01); exists c, r;
    rewrite Er; destruct Hr01 as [-> | ->]; cbn; auto.
Qed.

Lemma stop_decision_witness :
  front "/usr/bin/retry" [("w"%char, "1"); ("d"%char, "0")] true
  = Some (Go Runs.while_1)
  /\ exists c r,
       criterion_of Runs.while_1 = Some c
       /\ status_match 1 (Some c) = Some r /\ (r = 0 \/ r = 1)
       /\ should_stop (to_config Runs.while_1) 1
          = Some (match s_until Runs.while_1 with
                  | Some _ => r =? 1
                  | None => r =? 0
                  end).
Proof.
  split; [reflexivity|].
  apply (stop_decision "/usr/bin/retry"
           [("w"%char, "1"); ("d"%char, "0")] true Runs.while_1 1).
  reflexivity.
Defined.

(** *** The last of [-u] and [-w] *)




(** *** Leaving before the retry loop *)

Lemma option_case_leave name c optarg s code out :
  option_case name c optarg s = Some (Leave (code, out)) ->
  (code = 0 /\ (out = Version \/ out = Usage false None (program_name name)))
  \/ (code = 1 /\ exists msg, out = Usage true msg (program_name name)).
Proof.
  unfold option_case, help, version.
  destruct (status_match 0 (Some optarg)) as [r|]; cbn [mbind option_bind];
    repeat match goal with
           | |- context [if ?b then _ else _] => destruct b
           end;
    try discriminate; intros H; inversion H; subst; cbn; eauto.
Qed.

Lemma front_leave name opts has_command code out :
  front name opts has_command = Some (Leave (code, out)) ->
  (code = 0 /\ (out = Version \/ out = Usage false None (program_name name)))
  \/ (code = 1 /\ exists msg, out = Usage true msg (program_name name)).
Proof.
  unfold front.
  assert (forall s, parse_options name opts s = Some (Leave (code, out)) ->
          (code = 0 /\ (out = Version
                        \/ out = Usage false None (program_name name)))
          \/ (code = 1 /\ exists msg, out = Usage true msg (program_name name)))
    as Hp.
  { induction opts as [|[c optarg] opts IH]; intros s; cbn; [discriminate|].
    destruct (option_case name c optarg s) as [[s1|r]|] eqn:E;
      try discriminate; [apply IH|].
    intros [= ->]. eapply option_case_leave. exact E. }
  destruct (parse_options name opts settings_default) as [[s1|r]|] eqn:E.
  - destruct has_command; [discriminate|]. intros [= <- <-]. right. cbn. eauto.
  - intros [= ->]. eapply Hp. exact E.
  - discriminate.
Qed.

(** X26: when [main] returns before the retry loop it returns 0 or 1:
    0 after printing the version or the usage text to standard output,
    1 after printing the usage text to standard error. *)
Theorem early_exit name opts has_command code out :
  front name opts has_command = Some (Leave (code, out)) ->
  (code = 0 /\ (out = Version \/ out = Usage false None (program_name name)))
  \/ (code = 1 /\ exists msg, out = Usage true msg (program_name name)).
Proof. apply front_leave. Qed.

Lemma early_exit_witness :
  front "/usr/bin/retry" [("d"%char, "0"); ("h"%char, "")] true
  = Some (Leave (0, Usage false None "retry"))
  /\ ((0 = 0 /\ (Usage false None "retry" = Version
                 \/ Usage false None "retry"
                    = Usage false None (program_name "/usr/bin/retry")))
      \/ (0 = 1 /\ exists msg, Usage false None "retry"
                               = Usage true msg (program_name "/usr/bin/retry"))).
Proof.
  split; [reflexivity|].
  apply (early_exit "/usr/bin/retry" [("d"%char, "0"); ("h"%char, "")] true
           0 (Usage false None "retry")).
  reflexivity.
Defined.

(** *** The exit code *)

Lemma wexitstatus_range st : 0 <= WEXITSTATUS st <= 255.
Proof.
  unfold WEXITSTATUS. rewrite Z.shiftr_land.
  change (Z.shiftr 65280 8) with (Z.ones 8).
  rewrite Z.land_ones by lia. change (2 ^ 8) with 256.
  pose proof (Z.mod_pos_bound (Z.shiftr st 8) 256). lia.
Qed.


Lemma wtermsig_range st : 0 <= WTERMSIG st <= 127.
Proof.
  unfold WTERMSIG. change (Z.land st 127) with (Z.land st (Z.ones 7)).
  rewrite Z.land_ones by lia. change (2 ^ 7) with 128.
  pose proof (Z.mod_pos_bound st 128). lia.
Qed.

Lemma main_loop_exit_range script cfg times pumps status o :
  0 <= status <= 255 ->
  main_loop cfg times pumps status script = Some o ->
  0 <= exit_status o <= 255.
Proof.
  revert cfg times pumps status o.
  induction script as [|a script IH]; intros cfg times pumps status o Hs H.
  { split_pass H. cbn. exact Hs. }
  split_pass H; cbn [exit_status]; unfold EXIT_FAILURE, EX_OSERR;
    first
      [ exact Hs
      | apply wexitstatus_range
      | match goal with
        | Hrec : main_loop _ _ _ _ _ = Some _ |- _ =>
            eapply IH; [|exact Hrec]; apply wexitstatus_range
        end
      | match goal with
        | |- context [WTERMSIG ?st] => pose proof (wtermsig_range st); lia
        end
      | lia ].
Qed.

(** X16: whatever the options, the commands and the system do, the value
    [main] returns is between 0 and 255. *)
Theorem exit_code_range name opts has_command script code out tr :
  retry_main name opts has_command script = Some (code, out, tr) ->
  0 <= code <= 255.
Proof.
  unfold retry_main.
  destruct (front name opts has_command) as [[s|[c o]]|] eqn:E;
    try discriminate.
  - unfold main.
    destruct (main_loop (to_config s) (times (to_config s)) pumps_zero 0 script)
      as [r|] eqn:Em; [|discriminate].
    intros [= <- _ _].
    eapply main_loop_exit_range; [|exact Em]. lia.
  - intros [= <- _ _].
    destruct (front_leave _ _ _ _ _ E) as [[-> _]|[-> _]]; lia.
Qed.

Lemma exit_code_range_witness :
  retry_main "/usr/bin/retry" Runs.t3_d0 true
    [Scenario.fails_silently; Scenario.fails_silently;
     Scenario.fails_silently]
  = Some (1, None, trace Runs.three_failures)
  /\ 0 <= 1 <= 255.
Proof.
  split; [reflexivity|].
  apply (exit_code_range "/usr/bin/retry" Runs.t3_d0 true
           [Scenario.fails_silently; Scenario.fails_silently;
            Scenario.fails_silently]
           1 None (trace Runs.three_failures)).
  reflexivity.
Defined.

End OptionsFacts.
